(** * Cnchi: src/pacman/pac.py

    A shallow embedding of the [Pac] class, the layer between the
    installer and the pyalpm package engine: transaction handling
    ([finalize], [init_transaction], [do_refresh], [do_install]),
    package and group resolution ([find_sync_package], [get_group_pkgs]),
    the de-duplicating event emitter ([queue_event]) and the engine
    callbacks ([cb_event], [cb_log], [cb_progress], [cb_dl]).

    Python integers are unbounded, hence [Z].  A method of [Pac] is a
    function from the world (the instance's attributes together with a
    log of the calls it made to its collaborators) to an outcome: it
    returns, raises, or reaches the [join(); sys.exit(1)] of the fatal
    event path. *)

From Stdlib Require Import ZArith QArith Lia Ascii String.
From stdpp Require Import base strings pretty list gmap.

Local Open Scope Z_scope.
Local Open Scope string_scope.

(** ** Python values carried by events *)

(** The second argument of [queue_event] is a [str] (messages), an [int]
    (the download progress) or a [float] (the quotients [percent / 100]
    and [i / n]).  A float quotient of two integers is kept as the exact
    rational; equality of two such quotients is equality of rationals. *)
Inductive PyVal :=
| PStr (s : string)
| PInt (z : Z)
| PFloat (q : Q).

(** Python's [==] on these values: numbers compare by value across [int]
    and [float], a string is never equal to a number. *)
Definition py_eq (a b : PyVal) : bool :=
  match a, b with
  | PStr s, PStr t => bool_decide (s = t)
  | PInt x, PInt y => bool_decide (x = y)
  | PInt x, PFloat q => Qeq_bool (inject_Z x) q
  | PFloat q, PInt y => Qeq_bool q (inject_Z y)
  | PFloat p, PFloat q => Qeq_bool p q
  | _, _ => false
  end.

(** Exceptions the module can meet. [AlpmError] is [pyalpm.error]. *)
Inductive Exn :=
| NameError (name : string)
| AttributeError (attr : string)
| TypeError
| ValueError
| ZeroDivisionError
| AlpmError.

(** The float [a / b] for [b] other than 0. *)
Definition py_quot (a b : Z) : PyVal := PFloat (Qdiv (inject_Z a) (inject_Z b)).

(** [a / b] on two integers (true division). *)
Definition py_truediv (a b : Z) : Exn + PyVal :=
  if bool_decide (b = 0) then inl ZeroDivisionError
  else inr (py_quot a b).

(** ** The environment of the module

    Names the module uses but does not define: the translation function
    [_] installed by the application, the floating point logarithm of the
    download heuristic, the text of a float, and the path of the module
    file as the frame inspection of [queue_event] reports it. *)
Record Env := {
  gettext : string -> string;        (* _(message) *)
  log_progress : Z -> Z;             (* int(math.log(1 + tx / 1024) ** 2 / 2), tx > -1024 *)
  float_repr : Q -> string;          (* str(x) for a float x *)
  pac_file : string                  (* co_filename of the methods of Pac *)
}.

(** [str(v)], the conversion done by [%s]. *)
Definition py_str (env : Env) (v : PyVal) : string :=
  match v with
  | PStr s => s
  | PInt z => pretty z
  | PFloat q => float_repr env q
  end.

(** [fmt % args] for the conversions the module uses: [%s], [%d], [%i]
    and the escape [%%].  Too few or too many arguments and a string given
    to [%d] raise [TypeError]; any other conversion character raises
    [ValueError]. *)
Fixpoint py_format (env : Env) (fmt : string) (args : list PyVal) : Exn + string :=
  match fmt with
  | EmptyString =>
      match args with
      | [] => inr EmptyString
      | _ :: _ => inl TypeError
      end
  | String c EmptyString =>
      if bool_decide (c = "%"%char) then inl ValueError
      else match args with
           | [] => inr (String c EmptyString)
           | _ :: _ => inl TypeError
           end
  | String c (String d rest as tl) =>
      if bool_decide (c = "%"%char) then
        if bool_decide (d = "%"%char) then
          match py_format env rest args with
          | inr r => inr (String "%" r)
          | inl e => inl e
          end
        else if bool_decide (d = "s"%char) then
          match args with
          | v :: args' =>
              match py_format env rest args' with
              | inr r => inr (py_str env v +:+ r)
              | inl e => inl e
              end
          | [] => inl TypeError
          end
        else if bool_decide (d = "d"%char) || bool_decide (d = "i"%char) then
          match args with
          | PInt z :: args' =>
              match py_format env rest args' with
              | inr r => inr (pretty z +:+ r)
              | inl e => inl e
              end
          | PFloat q :: args' =>
              match py_format env rest args' with
              | inr r => inr (pretty (Z.quot (Qnum q) (Zpos (Qden q))) +:+ r)
              | inl e => inl e
              end
          | PStr _ :: _ => inl TypeError
          | [] => inl TypeError
          end
        else inl ValueError
      else
        match py_format env tl args with
        | inr r => inr (String c r)
        | inl e => inl e
        end
  end.


(** ** The callback queue

    [callback_queue] is a bounded queue shared with the consumer process.
    [q_maxsize = 0] means unbounded, as in Python. *)
Definition Event : Type := string * PyVal.

Record Queue := {
  q_items : list Event;
  q_maxsize : nat
}.

Definition q_full (q : Queue) : bool :=
  (0 <? q_maxsize q)%nat && (q_maxsize q <=? length (q_items q))%nat.

(** [put_nowait]: [None] stands for the exception [queue.Full]. *)
Definition put_nowait (q : Queue) (ev : Event) : option Queue :=
  if q_full q then None
  else Some {| q_items := q_items q ++ [ev]; q_maxsize := q_maxsize q |}.

(** What [join] waits for: every item has been taken by the consumer
    ("wait until queue is empty", says the source). *)
Definition q_drained (q : Queue) : Prop := q_items q = [].

(** ** The engine (pyalpm) as seen from the module

    The engine is an oracle: a sync database answers package and group
    lookups from its tables; an operation of a transaction either returns
    or raises [pyalpm.error]. *)
Record Package := {
  pkg_name : string;
  pkg_db : string
}.

Inductive EngineResult := Done | Fails.

Record Db := {
  db_name : string;
  db_pkgs : list Package;
  db_grps : list (string * list Package);
  db_update : EngineResult
}.

(** [db.get_pkg(name)]: the package of that name, or [None]. *)
Definition get_pkg (db : Db) (name : string) : option Package :=
  List.find (fun p => bool_decide (pkg_name p = name)) (db_pkgs db).

(** [db.read_grp(name)]: the pair (name, members), or [None]. *)
Definition read_grp (db : Db) (name : string) : option (string * list Package) :=
  List.find (fun g => bool_decide (fst g = name)) (db_grps db).

Record TransFlags := {
  cascade : bool; nodeps : bool; force : bool; dbonly : bool;
  downloadonly : bool; nosave : bool; recurse : bool; recurseall : bool;
  unneeded : bool; alldeps : bool; allexplicit : bool
}.

Record Transaction := {
  t_id : nat;
  t_add_pkg : Package -> EngineResult;
  t_prepare : EngineResult;
  t_commit : EngineResult;
  t_release : EngineResult
}.

(** [handle.init_transaction(...)]: [None] stands for [pyalpm.error]. *)
Record Handle := {
  get_syncdbs : list Db;
  h_init_transaction : TransFlags -> option Transaction
}.

(** The [options] argument: an object read with [getattr(options, name,
    default)]; a missing attribute (or [options = None]) is [None] here. *)
Record Options := {
  o_cascade : option bool; o_nodeps : option bool; o_force : option bool;
  o_dbonly : option bool; o_downloadonly : option bool;
  o_nosave : option bool; o_recursive : option Z;
  o_unneeded : option bool; o_mode : option Z
}.

Definition no_options : Options :=
  {| o_cascade := None; o_nodeps := None; o_force := None; o_dbonly := None;
     o_downloadonly := None; o_nosave := None; o_recursive := None;
     o_unneeded := None; o_mode := None |}.

(** libalpm's [alpm_pkgreason_t]. *)
Definition PKG_REASON_EXPLICIT : Z := 0.
Definition PKG_REASON_DEPEND : Z := 1.

(** libalpm's [alpm_loglevel_t]. *)
Definition LOG_ERROR : Z := 1.
Definition LOG_WARNING : Z := 2.

(** ** The instance and the world *)

(** The attributes set by [__init__]. [handle] is [None] when the
    constructor was given no configuration path: the attribute then does
    not exist. *)
Record Pac := {
  callback_queue : Queue;
  conflict_to_remove : option string;
  last_target : option string;
  last_percent : Z;
  last_i : Z;
  last_dl_filename : option string;
  last_dl_progress : option Z;
  last_dl_total : option Z;
  last_event : gmap string PyVal;
  handle : option Handle
}.

(** The calls a method makes to its collaborators, and the calls of
    [queue_event] itself, in the order they happen. *)
Inductive Call :=
| CLogging (level : string) (msg : string)
| CPrintExc
| CQueueEvent (event_type : string) (event_text : PyVal)
| CSetCallback (attr : string)
| CGetSyncdbs
| CGetPkg (db : string) (name : string)
| CReadGrp (db : string) (name : string)
| CDbUpdate (db : string) (forced : bool)
| CInitTransaction (flags : TransFlags)
| CAddPkg (t : nat) (p : Package)
| CPrepare (t : nat)
| CCommit (t : nat)
| CRelease (t : nat).

Record World := {
  self : Pac;
  calls : list Call
}.

(** [Pac(conf_path, callback_queue)]; [h] is the handle that the
    configuration at [conf_path] initialises, if a path is given. *)
Definition init (h : option Handle) (q : Queue) : Pac :=
  {| callback_queue := q;
     conflict_to_remove := None;
     last_target := None; last_percent := 100; last_i := -1;
     last_dl_filename := None; last_dl_progress := None; last_dl_total := None;
     last_event := ∅;
     handle := h |}.

(** The world after the constructor: with a configuration the six
    callbacks have been set on the handle. *)
Definition init_world (h : option Handle) (q : Queue) : World :=
  {| self := init h q;
     calls :=
       match h with
       | Some _ =>
           [CSetCallback "dlcb"; CSetCallback "totaldlcb"; CSetCallback "eventcb";
            CSetCallback "questioncb"; CSetCallback "progresscb";
            CSetCallback "logcb"]
       | None => []
       end |}.

(** ** Outcomes and sequencing *)

(** A call returns a value, raises, or reaches
    [self.callback_queue.join(); sys.exit(code)]. *)
Inductive Outcome (A : Type) :=
| Return (a : A) (w : World)
| Raise (e : Exn) (w : World)
| JoinExit (code : Z) (w : World).
Arguments Return {A} a w.
Arguments Raise {A} e w.
Arguments JoinExit {A} code w.

Definition M (A : Type) : Type := World -> Outcome A.

Definition ret {A} (a : A) : M A := fun w => Return a w.

Definition bind {A B} (m : M A) (k : A -> M B) : M B :=
  fun w =>
    match m w with
    | Return a w' => k a w'
    | Raise e w' => Raise e w'
    | JoinExit c w' => JoinExit c w'
    end.

Notation "'let*' x ':=' m 'in' k" := (bind m (fun x => k))
  (at level 10, x name, m at level 100, k at level 200).
Notation "m '>>>' k" := (bind m (fun _ => k))
  (at level 90, right associativity).

Definition raise {A} (e : Exn) : M A := fun w => Raise e w.
Definition join_exit {A} (code : Z) : M A := fun w => JoinExit code w.

Definition lift {A} (r : Exn + A) : M A :=
  match r with
  | inr a => ret a
  | inl e => raise e
  end.

Definition get_self : M Pac := fun w => Return (self w) w.

Definition modify (f : Pac -> Pac) : M unit :=
  fun w => Return tt {| self := f (self w); calls := calls w |}.

Definition call (c : Call) : M unit :=
  fun w => Return tt {| self := self w; calls := calls w ++ [c] |}.

(** The state an outcome ends in. *)
Definition final {A} (o : Outcome A) : World :=
  match o with
  | Return _ w | Raise _ w | JoinExit _ w => w
  end.

(** Attribute assignments. *)
Definition set_callback_queue (q : Queue) (p : Pac) : Pac :=
  {| callback_queue := q;
     conflict_to_remove := conflict_to_remove p;
     last_target := last_target p; last_percent := last_percent p;
     last_i := last_i p; last_dl_filename := last_dl_filename p;
     last_dl_progress := last_dl_progress p; last_dl_total := last_dl_total p;
     last_event := last_event p; handle := handle p |}.

Definition set_last_target (v : option string) (p : Pac) : Pac :=
  {| callback_queue := callback_queue p;
     conflict_to_remove := conflict_to_remove p;
     last_target := v; last_percent := last_percent p;
     last_i := last_i p; last_dl_filename := last_dl_filename p;
     last_dl_progress := last_dl_progress p; last_dl_total := last_dl_total p;
     last_event := last_event p; handle := handle p |}.

Definition set_last_percent (v : Z) (p : Pac) : Pac :=
  {| callback_queue := callback_queue p;
     conflict_to_remove := conflict_to_remove p;
     last_target := last_target p; last_percent := v;
     last_i := last_i p; last_dl_filename := last_dl_filename p;
     last_dl_progress := last_dl_progress p; last_dl_total := last_dl_total p;
     last_event := last_event p; handle := handle p |}.

Definition set_last_i (v : Z) (p : Pac) : Pac :=
  {| callback_queue := callback_queue p;
     conflict_to_remove := conflict_to_remove p;
     last_target := last_target p; last_percent := last_percent p;
     last_i := v; last_dl_filename := last_dl_filename p;
     last_dl_progress := last_dl_progress p; last_dl_total := last_dl_total p;
     last_event := last_event p; handle := handle p |}.

Definition set_last_dl_filename (v : option string) (p : Pac) : Pac :=
  {| callback_queue := callback_queue p;
     conflict_to_remove := conflict_to_remove p;
     last_target := last_target p; last_percent := last_percent p;
     last_i := last_i p; last_dl_filename := v;
     last_dl_progress := last_dl_progress p; last_dl_total := last_dl_total p;
     last_event := last_event p; handle := handle p |}.

Definition set_last_dl_progress (v : option Z) (p : Pac) : Pac :=
  {| callback_queue := callback_queue p;
     conflict_to_remove := conflict_to_remove p;
     last_target := last_target p; last_percent := last_percent p;
     last_i := last_i p; last_dl_filename := last_dl_filename p;
     last_dl_progress := v; last_dl_total := last_dl_total p;
     last_event := last_event p; handle := handle p |}.

Definition set_last_dl_total (v : option Z) (p : Pac) : Pac :=
  {| callback_queue := callback_queue p;
     conflict_to_remove := conflict_to_remove p;
     last_target := last_target p; last_percent := last_percent p;
     last_i := last_i p; last_dl_filename := last_dl_filename p;
     last_dl_progress := last_dl_progress p; last_dl_total := v;
     last_event := last_event p; handle := handle p |}.

Definition set_last_event (v : gmap string PyVal) (p : Pac) : Pac :=
  {| callback_queue := callback_queue p;
     conflict_to_remove := conflict_to_remove p;
     last_target := last_target p; last_percent := last_percent p;
     last_i := last_i p; last_dl_filename := last_dl_filename p;
     last_dl_progress := last_dl_progress p; last_dl_total := last_dl_total p;
     last_event := v; handle := handle p |}.

(** ** Name resolution

    A bare name in a method body is looked up in the module's global
    namespace and then in the builtins. *)
Inductive PyObject :=
| OModule (name : string)
| OClass (name : string)
| OFunction (name : string)
| OHandle (h : Handle).

(** The names pac.py binds at module level: its imports and the class. *)
Definition pac_globals : gmap string PyObject :=
  list_to_map
    [("traceback", OModule "traceback"); ("sys", OModule "sys");
     ("locale", OModule "locale"); ("gettext", OModule "gettext");
     ("math", OModule "math"); ("logging", OModule "logging");
     ("Queue", OClass "Queue"); ("queue", OModule "queue");
     ("pyalpm", OModule "pyalpm"); ("config", OModule "config");
     ("Pac", OClass "Pac")].

(** The builtins the module calls, with [_] as installed by the
    application. *)
Definition builtins : gmap string PyObject :=
  list_to_map
    [("_", OFunction "_"); ("len", OFunction "len");
     ("dict", OClass "dict"); ("getattr", OFunction "getattr");
     ("int", OClass "int"); ("print", OFunction "print")].

Definition load_global (globals : gmap string PyObject) (name : string) : M PyObject :=
  match globals !! name with
  | Some o => ret o
  | None =>
      match builtins !! name with
      | Some o => ret o
      | None => raise (NameError name)
      end
  end.

(** [o.get_syncdbs()] on an object found by name. *)
Definition obj_get_syncdbs (o : PyObject) : M (list Db) :=
  match o with
  | OHandle h => call CGetSyncdbs >>> ret (get_syncdbs h)
  | _ => raise (AttributeError "get_syncdbs")
  end.

(** [self.handle] *)
Definition self_handle : M Handle :=
  let* s := get_self in
  match handle s with
  | Some h => ret h
  | None => raise (AttributeError "handle")
  end.

(** An engine operation: logged, then returns or raises [pyalpm.error]. *)
Definition engine_op (c : Call) (r : EngineResult) : M unit :=
  call c >>>
  match r with
  | Done => ret tt
  | Fails => raise AlpmError
  end.

(** [try: body except pyalpm.error: handler] *)
Definition try_except_alpm {A} (body handler : M A) : M A :=
  fun w =>
    match body w with
    | Raise AlpmError w' => handler w'
    | o => o
    end.

(** [for x in xs: body x] *)
Fixpoint for_each {A} (xs : list A) (body : A -> M unit) : M unit :=
  match xs with
  | [] => ret tt
  | x :: xs' => body x >>> for_each xs' body
  end.

(** ** A dict with string keys that remembers insertion order *)
Fixpoint dict_set {V} (d : list (string * V)) (k : string) (v : V) : list (string * V) :=
  match d with
  | [] => [(k, v)]
  | (k', v') :: d' =>
      if bool_decide (k' = k) then (k', v) :: d'
      else (k', v') :: dict_set d' k v
  end.

(** [dict(pairs)] *)
Definition dict_of {V} (pairs : list (string * V)) : list (string * V) :=
  fold_left (fun d kv => dict_set d (fst kv) (snd kv)) pairs [].

Definition dict_values {V} (d : list (string * V)) : list V := map snd d.

(** The code object of the caller, as [queue_event] reads it from the
    frame below its own. *)
Record Code := {
  co_name : string;
  co_filename : string;
  co_firstlineno : Z
}.

(** ** The methods of [Pac] *)
Section Methods.
Variable env : Env.
(* the global namespace the methods run in *)
Variable globals : gmap string PyObject.

Definition code (name : string) (line : Z) : Code :=
  {| co_name := name; co_filename := pac_file env; co_firstlineno := line |}.

Definition format (fmt : string) (args : list PyVal) : M string :=
  lift (py_format env fmt args).

Definition logging (level msg : string) : M unit := call (CLogging level msg).

(** *** Transaction *)

(** [finalize(t)]: the body of the [try] yields [None]; the handler
    returns [False]; after the [try] the method releases and returns
    [True]. *)
Definition finalize (t : Transaction) : M bool :=
  let* r :=
    try_except_alpm
      (engine_op (CPrepare (t_id t)) (t_prepare t) >>>
       engine_op (CCommit (t_id t)) (t_commit t) >>>
       ret None)
      (call CPrintExc >>>
       engine_op (CRelease (t_id t)) (t_release t) >>>
       ret (Some false))
  in
  match r with
  | Some b => ret b
  | None =>
      engine_op (CRelease (t_id t)) (t_release t) >>>
      ret true
  end.

Definition trans_flags (options : Options) : TransFlags :=
  {| cascade := default false (o_cascade options);
     nodeps := default false (o_nodeps options);
     force := default false (o_force options);
     dbonly := default false (o_dbonly options);
     downloadonly := default false (o_downloadonly options);
     nosave := default false (o_nosave options);
     recurse := bool_decide (default 0 (o_recursive options) > 0);
     recurseall := bool_decide (default 0 (o_recursive options) > 1);
     unneeded := default false (o_unneeded options);
     alldeps := bool_decide (o_mode options = Some PKG_REASON_DEPEND);
     allexplicit := bool_decide (o_mode options = Some PKG_REASON_EXPLICIT) |}.

Definition init_transaction (options : Options) : M Transaction :=
  self_handle >>> call (CSetCallback "dlcb") >>>
  self_handle >>> call (CSetCallback "eventcb") >>>
  self_handle >>> call (CSetCallback "questioncb") >>>
  self_handle >>> call (CSetCallback "progresscb") >>>
  let* h := self_handle in
  call (CInitTransaction (trans_flags options)) >>>
  match h_init_transaction h (trans_flags options) with
  | Some t => ret t
  | None => raise AlpmError
  end.

(** *** pacman -Sy (refresh) and pacman -S (install) *)

Definition do_refresh (options : Options) : M Z :=
  let force := true in
  let* h := self_handle in
  call CGetSyncdbs >>>
  for_each (get_syncdbs h) (fun db =>
    let* t := init_transaction options in
    engine_op (CDbUpdate (db_name db) force) (db_update db) >>>
    engine_op (CRelease (t_id t)) (t_release t)) >>>
  ret 0.

(** [find_sync_package(pkgname, syncdbs)]: [inl pkg] is the pair
    [(True, pkg)], [inr msg] the pair [(False, msg)]. *)
Fixpoint find_in_dbs (pkgname : string) (dbs : list Db) : M (option Package) :=
  match dbs with
  | [] => ret None
  | db :: dbs' =>
      call (CGetPkg (db_name db) pkgname) >>>
      match get_pkg db pkgname with
      | Some pkg => ret (Some pkg)
      | None => find_in_dbs pkgname dbs'
      end
  end.

Definition find_sync_package (pkgname : string) (syncdbs : list (string * Db))
  : M (Package + string) :=
  let* r := find_in_dbs pkgname (dict_values syncdbs) in
  match r with
  | Some pkg => ret (inl pkg)
  | None =>
      let* msg := format "package '%s' was not found" [PStr pkgname] in
      ret (inr msg)
  end.

Fixpoint first_group (group : string) (repos : list Db) : M (option (list Package)) :=
  match repos with
  | [] => ret None
  | repo :: repos' =>
      call (CReadGrp (db_name repo) group) >>>
      match read_grp repo group with
      | None => first_group group repos'
      | Some (name, pkgs) => ret (Some pkgs)
      end
  end.

(** [get_group_pkgs(group)]: iterates over [handle.get_syncdbs()], the
    bare name [handle]. *)
Definition get_group_pkgs (group : string) : M (option (list Package)) :=
  let* o := load_global globals "handle" in
  let* repos := obj_get_syncdbs o in
  first_group group repos.

(** The members of a group that are kept: [pkg.name not in conflicts]. *)
Definition not_in_conflicts (conflicts : list string) (pkg : Package) : bool :=
  negb (bool_decide (pkg_name pkg ∈ conflicts)).

(** The loop of [do_install] over the requested names; [targets] is the
    list built so far. *)
Fixpoint resolve_targets (pkgs : list string) (conflicts : list string)
    (repos : list (string * Db)) (targets : list Package) : M (list Package) :=
  match pkgs with
  | [] => ret targets
  | name :: pkgs' =>
      let* r := find_sync_package name repos in
      match r with
      | inl pkg =>
          let* msg := format "Added package %s" [PStr (pkg_name pkg)] in
          logging "debug" msg >>>
          resolve_targets pkgs' conflicts repos (targets ++ [pkg])
      | inr notfound =>
          let* group_pkgs := get_group_pkgs name in
          match group_pkgs with
          | Some members =>
              let* msg := format "Added group %s" [PStr name] in
              logging "debug" msg >>>
              resolve_targets pkgs' conflicts repos
                (targets ++ List.filter (not_in_conflicts conflicts) members)
          | None =>
              logging "error" notfound >>>
              resolve_targets pkgs' conflicts repos targets
          end
      end
  end.

Definition do_install (pkgs : list string) (conflicts : list string)
    (options : Options) : M Z :=
  logging "debug" "Install a list of packages like pacman -S" >>>
  if bool_decide (length pkgs = 0%nat) then
    logging "error" "No targets specified" >>>
    ret 1
  else
    let* o := load_global globals "handle" in
    let* dbs := obj_get_syncdbs o in
    let repos := dict_of (map (fun db => (db_name db, db)) dbs) in
    let* targets := resolve_targets pkgs conflicts repos [] in
    if bool_decide (length targets = 0%nat) then
      logging "error" "No targets found" >>>
      ret 1
    else
      let* t := init_transaction options in
      for_each targets (fun pkg =>
        engine_op (CAddPkg (t_id t) pkg) (t_add_pkg t pkg)) >>>
      let* ok := finalize t in
      ret (if ok then 0 else 1).

(** *** Queue event *)

(** The test at the head of [queue_event]: the type has a recorded text
    and it equals the new one. *)
Definition same_as_last (s : Pac) (event_type : string) (event_text : PyVal) : bool :=
  match last_event s !! event_type with
  | Some old => py_eq old event_text
  | None => false
  end.

(** [try: self.callback_queue.put_nowait(ev) except queue.Full: pass] *)
Definition put_or_drop (ev : Event) : M unit :=
  let* s := get_self in
  match put_nowait (callback_queue s) ev with
  | Some q' => modify (set_callback_queue q')
  | None => ret tt
  end.

Definition queue_event (caller : Code) (event_type : string) (event_text : PyVal)
  : M unit :=
  call (CQueueEvent event_type event_text) >>>
  let* s := get_self in
  if same_as_last s event_type event_text then
    (* do not repeat same event *)
    ret tt
  else
    modify (fun p => set_last_event (<[event_type := event_text]> (last_event p)) p) >>>
    let* text :=
      if bool_decide (event_type = "error") then
        let* m := format "%s: %s in %s:%i"
                    [event_text; PStr (co_name caller);
                     PStr (co_filename caller); PInt (co_firstlineno caller)] in
        ret (PStr m)
      else ret event_text
    in
    put_or_drop (event_type, text) >>>
    if bool_decide (event_type = "error") then
      join_exit 1
    else ret tt.

(** *** Callback functions *)

Definition cb_conv : M unit := ret tt.

Definition cb_totaldl (total_size : Z) : M unit := ret tt.

Definition event_action (ID : Z) : string :=
  if bool_decide (ID = 1) then gettext env "Checking dependencies..."
  else if bool_decide (ID = 3) then gettext env "Checking file conflicts..."
  else if bool_decide (ID = 5) then gettext env "Resolving dependencies..."
  else if bool_decide (ID = 7) then gettext env "Checking inter conflicts..."
  else if bool_decide (ID = 9) then ""
  else if bool_decide (ID = 11) then gettext env "Removing..."
  else if bool_decide (ID = 13) then gettext env "Upgrading..."
  else if bool_decide (ID = 15) then gettext env "Checking integrity..."
  else if bool_decide (ID = 17) then gettext env "Loading packages files..."
  else if bool_decide (ID = 26) then gettext env "Configuring..."
  else if bool_decide (ID = 27) then gettext env "Downloading a file"
  else "".

Definition cb_event (ID : Z) : M unit :=
  let action := event_action ID in
  if bool_decide (0 < String.length action)%nat then
    queue_event (code "cb_event" 225) "action" (PStr action)
  else ret tt.

Definition cb_log (level : Z) (line : string) : M unit :=
  let _logmask := Z.lor LOG_ERROR LOG_WARNING in
  if bool_decide (Z.land level _logmask = 0) then ret tt
  else if bool_decide (Z.land level LOG_ERROR ≠ 0) then logging "error" line
  else if bool_decide (Z.land level LOG_WARNING ≠ 0) then logging "warning" line
  else ret tt.

(** The test of the per-target branch of [cb_progress]:
    [target != self.last_target or percent < self.last_percent]. *)
Definition is_new_target (s : Pac) (target : string) (percent : Z) : bool :=
  negb (bool_decide (last_target s = Some target))
  || bool_decide (percent < last_percent s).

Definition cb_progress (target : string) (percent n i : Z) : M unit :=
  let me := code "cb_progress" 275 in
  (if bool_decide (String.length target = 0%nat) then
     (* Abstract progress *)
     let* s := get_self in
     (if bool_decide (percent < last_percent s) || bool_decide (i < last_i s) then
        let* text := format (gettext env "Progress (%d targets)") [PInt n] in
        queue_event me "info" (PStr text) >>>
        modify (set_last_i 0)
      else ret tt) >>>
     queue_event me "target" (PStr (gettext env "Checking and loading packages...")) >>>
     let* frac := lift (py_truediv percent 100) in
     queue_event me "percent" frac >>>
     modify (set_last_i i)
   else
     (* Progress for some target *)
     let* s := get_self in
     if is_new_target s target percent then
       modify (set_last_target (Some target)) >>>
       modify (set_last_percent 0) >>>
       let* text := format (gettext env "Installing %s (%d/%d)")
                      [PStr target; PInt i; PInt n] in
       queue_event me "target" (PStr text) >>>
       let* frac := lift (py_truediv percent 100) in
       queue_event me "percent" frac >>>
       let* gfrac := lift (py_truediv i n) in
       queue_event me "global_percent" gfrac
     else ret tt) >>>
  modify (set_last_percent percent).

(** The test at the head of [cb_dl]:
    [filename != self.last_dl_filename or self.last_dl_total != total]. *)
Definition is_new_file (s : Pac) (filename : string) (total : Z) : bool :=
  negb (bool_decide (last_dl_filename s = Some filename))
  || negb (bool_decide (last_dl_total s = Some total)).

(** [cb_dl], first part: check if a new file is coming. *)
Definition dl_new_file (filename : string) (tx total : Z) : M unit :=
  let me := code "cb_dl" 296 in
  let* s := get_self in
  if is_new_file s filename total then
    modify (set_last_dl_filename (Some filename)) >>>
    modify (set_last_dl_total (Some total)) >>>
    modify (set_last_dl_progress (Some 0)) >>>
    let* text := format "Download %s: %d/%d" [PStr filename; PInt tx; PInt total] in
    queue_event me "action" (PStr (gettext env text))
  else ret tt.

(** [cb_dl], second part: compute a progress indicator.  Comparing
    [None] with 0 raises [TypeError]; the logarithm of a number that is
    not positive raises [ValueError]. *)
Definition dl_progress (tx : Z) : M Z :=
  let* s := get_self in
  match last_dl_total s with
  | None => raise TypeError
  | Some t =>
      if bool_decide (t > 0) then ret ((tx * 25) `div` t)
      else
        (* if total is unknown, use log(kBytes)²/2 *)
        if bool_decide (tx <= -1024) then raise ValueError
        else ret (log_progress env tx)
  end.

(** [cb_dl], third part: the events, when the indicator has grown. *)
Definition dl_gate (filename : string) (tx total progress : Z) : M unit :=
  let me := code "cb_dl" 296 in
  let* s := get_self in
  match last_dl_progress s with
  | None => raise TypeError
  | Some last =>
      if bool_decide (progress > last) then
        modify (set_last_dl_progress (Some progress)) >>>
        let* text := format "Download %s: %d/%d" [PStr filename; PInt tx; PInt total] in
        queue_event me "action" (PStr (gettext env text)) >>>
        queue_event me "percent" (PInt progress)
      else ret tt
  end.

Definition cb_dl (filename : string) (tx total : Z) : M unit :=
  dl_new_file filename tx total >>>
  let* progress := dl_progress tx in
  dl_gate filename tx total progress.

End Methods.

(** ** The consumer side of the queue

    The process that reached [join(); sys.exit(code)] is blocked while
    the consumer takes items; [join] returns once the queue is drained and
    the process then exits with [code]. *)
Inductive Proc :=
| Blocked (code : Z) (q : Queue)
| Exited (code : Z) (q : Queue).

(** [proc_run p evs p']: from [p] the consumer takes the events [evs],
    in this order, and the process is then in [p']. *)
Inductive proc_run : Proc -> list Event -> Proc -> Prop :=
| run_stop p : proc_run p [] p
| run_take code ev items m evs p :
    proc_run (Blocked code {| q_items := items; q_maxsize := m |}) evs p ->
    proc_run (Blocked code {| q_items := ev :: items; q_maxsize := m |}) (ev :: evs) p
| run_exit code q evs p :
    q_drained q ->
    proc_run (Exited code q) evs p ->
    proc_run (Blocked code q) evs p.

(** The process an outcome leaves behind, when it is the fatal one. *)
Definition proc_of {A} (o : Outcome A) : option Proc :=
  match o with
  | JoinExit code w => Some (Blocked code (callback_queue (self w)))
  | _ => None
  end.

(** ** The effect of one emit *)

Definition error_text (env : Env) (caller : Code) (event_text : PyVal) : string :=
  py_str env event_text +:+ ": " +:+ co_name caller +:+ " in " +:+
  co_filename caller +:+ ":" +:+ pretty (co_firstlineno caller).

(** The text that goes to the queue. *)
Definition pushed_text (env : Env) (caller : Code) (event_type : string)
    (event_text : PyVal) : PyVal :=
  if bool_decide (event_type = "error") then PStr (error_text env caller event_text)
  else event_text.

(** The instance after a best-effort push. *)
Definition enqueue (ev : Event) (p : Pac) : Pac :=
  match put_nowait (callback_queue p) ev with
  | Some q' => set_callback_queue q' p
  | None => p
  end.

(** The world [queue_event] ends in. *)
Definition after_emit (env : Env) (caller : Code) (event_type : string)
    (event_text : PyVal) (w : World) : World :=
  {| self :=
       if same_as_last (self w) event_type event_text then self w
       else enqueue (event_type, pushed_text env caller event_type event_text)
              (set_last_event (<[event_type := event_text]> (last_event (self w))) (self w));
     calls := calls w ++ [CQueueEvent event_type event_text] |}.

(** ** Runs of the emitter *)

(** A run of emits, each with its caller. *)
Definition emit_all (env : Env) (es : list (Code * Event)) : M unit :=
  for_each es (fun e => queue_event env (fst e) (fst (snd e)) (snd (snd e))).

(** The texts of the events of one type, in queue order. *)
Definition texts_of (event_type : string) (items : list Event) : list PyVal :=
  map snd (List.filter (fun ev => bool_decide (fst ev = event_type)) items).

(** No two neighbours are equal (Python's [==]). *)
Fixpoint no_repeat (l : list PyVal) : Prop :=
  match l with
  | a :: (b :: _) as tl => py_eq a b = false /\ no_repeat tl
  | _ => True
  end.

(** The world with another content of the queue (the consumer's doing). *)
Definition with_queue (q : Queue) (w : World) : World :=
  {| self := set_callback_queue q (self w); calls := calls w |}.

(** What a run on an unbounded queue keeps true: the recorded text of a
    type is the text of the last event of that type in the queue, and no
    [error] has been emitted. *)
Definition dedup_inv (w : World) : Prop :=
  q_maxsize (callback_queue (self w)) = 0%nat /\
  last_event (self w) !! "error" = None /\
  forall ty,
    no_repeat (texts_of ty (q_items (callback_queue (self w)))) /\
    forall v, last (texts_of ty (q_items (callback_queue (self w)))) = Some v ->
              last_event (self w) !! ty = Some v.

(** The calls [finalize] makes on a transaction, by what [prepare] and
    [commit] answer. *)
Definition finalize_calls (t : Transaction) : list Call :=
  match t_prepare t, t_commit t with
  | Done, Done => [CPrepare (t_id t); CCommit (t_id t); CRelease (t_id t)]
  | Done, Fails => [CPrepare (t_id t); CCommit (t_id t); CPrintExc; CRelease (t_id t)]
  | Fails, _ => [CPrepare (t_id t); CPrintExc; CRelease (t_id t)]
  end.

Definition both_done (t : Transaction) : bool :=
  match t_prepare t, t_commit t with
  | Done, Done => true
  | _, _ => false
  end.

Definition is_release (id : nat) (c : Call) : bool :=
  match c with
  | CRelease i => bool_decide (i = id)
  | _ => false
  end.

(** The scenario of the group install: one sync source [core] whose group
    [basegroup] has the members A, B and C; no package is called
    [basegroup]. *)
Definition pkg_A : Package := {| pkg_name := "A"; pkg_db := "core" |}.
Definition pkg_B : Package := {| pkg_name := "B"; pkg_db := "core" |}.
Definition pkg_C : Package := {| pkg_name := "C"; pkg_db := "core" |}.

Definition core_db : Db :=
  {| db_name := "core";
     db_pkgs := [pkg_A; pkg_B; pkg_C];
     db_grps := [("basegroup", [pkg_A; pkg_B; pkg_C])];
     db_update := Done |}.

Definition good_transaction : Transaction :=
  {| t_id := 1; t_add_pkg := fun _ => Done;
     t_prepare := Done; t_commit := Done; t_release := Done |}.

Definition core_handle : Handle :=
  {| get_syncdbs := [core_db];
     h_init_transaction := fun _ => Some good_transaction |}.

Definition unbounded : Queue := {| q_items := []; q_maxsize := 0 |}.

(** The translation of a template still takes the given arguments. *)
Definition accepts (env : Env) (template : string) (args : list PyVal) : Prop :=
  exists text, py_format env (gettext env template) args = inr text.

(** The catalogue keeps the conversions of the two templates that
    [cb_progress] fills in after translation. *)
Definition translations_ok (env : Env) : Prop :=
  (forall target i n,
     accepts env "Installing %s (%d/%d)" [PStr target; PInt i; PInt n]) /\
  (forall n, accepts env "Progress (%d targets)" [PInt n]).

(** The three events of the new-target branch of [cb_progress]. *)
Definition new_target_calls (text : string) (percent n i : Z) : list Call :=
  [CQueueEvent "target" (PStr text);
   CQueueEvent "percent" (py_quot percent 100);
   CQueueEvent "global_percent" (py_quot i n)].

(** The world after the new-target branch and the final assignment. *)
Definition new_target_world (env : Env) (target text : string) (percent n i : Z)
    (w : World) : World :=
  let me := code env "cb_progress" 275 in
  let w1 := {| self := set_last_percent 0 (set_last_target (Some target) (self w));
               calls := calls w |} in
  let w2 := after_emit env me "target" (PStr text) w1 in
  let w3 := after_emit env me "percent" (py_quot percent 100) w2 in
  let w4 := after_emit env me "global_percent" (py_quot i n) w3 in
  {| self := set_last_percent percent (self w4); calls := calls w4 |}.

(** The text of the download events. *)
Definition download_text (filename : string) (tx total : Z) : string :=
  "Download " +:+ filename +:+ ": " +:+ pretty tx +:+ "/" +:+ pretty total.

(** The two events of a sample whose indicator has grown. *)
Definition gate_calls (env : Env) (filename : string) (tx total progress : Z)
  : list Call :=
  [CQueueEvent "action" (PStr (gettext env (download_text filename tx total)));
   CQueueEvent "percent" (PInt progress)].

(** A tracked file has a recorded progress. *)
Definition dl_inv (s : Pac) : Prop :=
  is_Some (last_dl_filename s) -> is_Some (last_dl_progress s).

(** An environment for concrete runs: no translation. *)
Definition plain_env : Env :=
  {| gettext := fun s => s;
     log_progress := fun _ => 0;
     float_repr := fun _ => "0.0";
     pac_file := "pac.py" |}.

(** ** Readings used by the further properties *)

(** The calls of [init_transaction] on an instance with a handle. *)
Definition open_calls (options : Options) : list Call :=
  [CSetCallback "dlcb"; CSetCallback "eventcb"; CSetCallback "questioncb";
   CSetCallback "progresscb"; CInitTransaction (trans_flags options)].

(** The calls of one round of the loop of [do_refresh]. *)
Definition refresh_db_calls (options : Options) (t : Transaction) (db : Db)
  : list Call :=
  (open_calls options ++ [CDbUpdate (db_name db) true; CRelease (t_id t)])%list.

Definition is_any_release (c : Call) : bool :=
  match c with
  | CRelease _ => true
  | _ => false
  end.

Definition is_open (c : Call) : bool :=
  match c with
  | CInitTransaction _ => true
  | _ => false
  end.

(** The first package of that name in a list of databases. *)
Fixpoint lookup_pkg (dbs : list Db) (name : string) : option Package :=
  match dbs with
  | [] => None
  | db :: dbs' =>
      match get_pkg db name with
      | Some pkg => Some pkg
      | None => lookup_pkg dbs' name
      end
  end.

(** The members of the first group of that name in a list of databases. *)
Fixpoint lookup_grp (dbs : list Db) (name : string) : option (list Package) :=
  match dbs with
  | [] => None
  | db :: dbs' =>
      match read_grp db name with
      | Some g => Some (snd g)
      | None => lookup_grp dbs' name
      end
  end.

(** Calls that only read the engine tables or write the log. *)
Definition is_lookup (c : Call) : bool :=
  match c with
  | CLogging _ _ | CGetSyncdbs | CGetPkg _ _ | CReadGrp _ _ => true
  | _ => false
  end.

(** A world that differs from [w] by calls that only look up or log. *)
Definition lookups_after (w w' : World) : Prop :=
  exists l, w' = {| self := self w; calls := calls w ++ l |} /\
            forallb is_lookup l = true.

(** The message of [find_sync_package] for a miss. *)
Definition not_found_text (pkgname : string) : string :=
  "package '" +:+ pkgname +:+ "' was not found".

(** The loop of [do_install] read as a function of the engine tables:
    [repos] are the databases searched for packages, [sources] the ones
    searched for groups. *)
Fixpoint targets_of (repos sources : list Db) (conflicts : list string)
    (pkgs : list string) (targets : list Package) : list Package :=
  match pkgs with
  | [] => targets
  | name :: pkgs' =>
      match lookup_pkg repos name with
      | Some pkg => targets_of repos sources conflicts pkgs' (targets ++ [pkg])
      | None =>
          match lookup_grp sources name with
          | Some members =>
              targets_of repos sources conflicts pkgs'
                (targets ++ List.filter (not_in_conflicts conflicts) members)
          | None => targets_of repos sources conflicts pkgs' targets
          end
      end
  end.

(** The mapping [repos] that [do_install] builds from the databases. *)
Definition repos_of (dbs : list Db) : list (string * Db) :=
  dict_of (map (fun db => (db_name db, db)) dbs).

(** The last four lines of [do_install]: open, add the targets,
    finalize, and turn the answer into the exit code. *)
Definition install_commit (options : Options) (targets : list Package) : M Z :=
  let* t := init_transaction options in
  for_each targets (fun pkg =>
    engine_op (CAddPkg (t_id t) pkg) (t_add_pkg t pkg)) >>>
  let* ok := finalize t in
  ret (if ok then 0 else 1).

(** The targets [do_install] resolves on the databases of a handle. *)
Definition install_targets (h : Handle) (conflicts pkgs : list string)
  : list Package :=
  targets_of (dict_values (repos_of (get_syncdbs h))) (get_syncdbs h)
    conflicts pkgs [].

(** An engine whose transaction refuses the package C. *)
Definition picky_transaction : Transaction :=
  {| t_id := 2;
     t_add_pkg := fun p => if bool_decide (pkg_name p = "C") then Fails else Done;
     t_prepare := Done; t_commit := Done; t_release := Done |}.

Definition picky_handle : Handle :=
  {| get_syncdbs := [core_db];
     h_init_transaction := fun _ => Some picky_transaction |}.

(** The identifiers of the engine events that [cb_event] names. *)
Definition named_events : list Z := [1; 3; 5; 7; 11; 13; 15; 17; 26; 27].

(** The calls of [cb_log], by the bits of the level: bit 0 is the error
    bit, bit 1 the warning bit. *)
Definition log_calls (level : Z) (line : string) : list Call :=
  if Z.testbit level 0 then [CLogging "error" line]
  else if Z.testbit level 1 then [CLogging "warning" line]
  else [].

(** The test of the abstract mode of [cb_progress]:
    [percent < self.last_percent or i < self.last_i]. *)
Definition is_new_phase (s : Pac) (percent i : Z) : bool :=
  bool_decide (percent < last_percent s) || bool_decide (i < last_i s).

(** The recorded download progress is on the scale 0..25. *)
Definition dl_range (s : Pac) : Prop :=
  forall p, last_dl_progress s = Some p -> 0 <= p <= 25.

(** The test of [queue_event] on the record alone. *)
Definition is_repeat (m : gmap string PyVal) (event_type : string)
    (event_text : PyVal) : bool :=
  match m !! event_type with
  | Some old => py_eq old event_text
  | None => false
  end.

(** The record after an emit: unchanged by a repeat. *)
Definition recorded (m : gmap string PyVal) (event_type : string)
    (event_text : PyVal) : gmap string PyVal :=
  if is_repeat m event_type event_text then m
  else <[event_type := event_text]> m.

(** What an emit hands to the queue: nothing when it is a repeat. *)
Definition fresh (m : gmap string PyVal) (event_type : string)
    (event_text : PyVal) : list Event :=
  if is_repeat m event_type event_text then [] else [(event_type, event_text)].

(** The items of a queue after best-effort pushes of [evs], one after the
    other: an unbounded queue takes them all, a bounded queue takes as
    many as it has room for and the rest is dropped. *)
Definition pushed_items (q : Queue) (evs : list Event) : list Event :=
  (q_items q ++
   if (q_maxsize q =? 0)%nat then evs
   else take (q_maxsize q - length (q_items q)) evs)%list.

(** Three sync sources, two of them with a package [D]. *)
Definition pkg_D_extra : Package := {| pkg_name := "D"; pkg_db := "extra" |}.
Definition pkg_D_community : Package := {| pkg_name := "D"; pkg_db := "community" |}.

Definition extra_db : Db :=
  {| db_name := "extra"; db_pkgs := [pkg_D_extra]; db_grps := [];
     db_update := Done |}.

Definition community_db : Db :=
  {| db_name := "community"; db_pkgs := [pkg_D_community]; db_grps := [];
     db_update := Done |}.

(** A method never reaches the fatal exit. *)
Definition no_exit {A} (m : M A) : Prop :=
  forall w code w', m w <> JoinExit code w'.

(** * Properties *)

(** ** Equations for the emitter *)

Lemma append_empty_r (s : string) : s +:+ "" = s.
Proof.
  induction s as [|c s IH]; [reflexivity|].
  change (String c (s +:+ "") = String c s). by rewrite IH.
Qed.

Lemma format_error_text env v a b z :
  py_format env "%s: %s in %s:%i" [v; PStr a; PStr b; PInt z]
  = inr (py_str env v +:+ ": " +:+ a +:+ " in " +:+ b +:+ ":" +:+ pretty z).
Proof.
  rewrite <- (append_empty_r (pretty z)) at 1. reflexivity.
Qed.

Lemma queue_event_eq env caller event_type event_text w :
  queue_event env caller event_type event_text w =
  if same_as_last (self w) event_type event_text then
    Return tt (after_emit env caller event_type event_text w)
  else if bool_decide (event_type = "error") then
    JoinExit 1 (after_emit env caller event_type event_text w)
  else Return tt (after_emit env caller event_type event_text w).
Proof.
  unfold queue_event, after_emit, pushed_text, error_text, format, bind, call, get_self.
  cbv beta iota. change (self {| self := self w; calls := ?c |}) with (self w).
  destruct (same_as_last (self w) event_type event_text) eqn:Hsame; [reflexivity|].
  unfold modify, put_or_drop, bind, get_self, enqueue. cbv beta iota.
  destruct (bool_decide (event_type = "error")) eqn:Herr.
  - rewrite format_error_text. unfold lift, ret, bind. cbv beta iota.
    cbn [self calls].
    destruct (put_nowait _ _); reflexivity.
  - unfold ret, bind. cbv beta iota. cbn [self calls].
    destruct (put_nowait _ _); reflexivity.
Qed.

Lemma py_eq_refl v : py_eq v v = true.
Proof.
  destruct v as [s|z|q]; simpl.
  - by apply bool_decide_eq_true_2.
  - by apply bool_decide_eq_true_2.
  - apply Qeq_bool_iff. reflexivity.
Qed.

Lemma last_event_enqueue ev p : last_event (enqueue ev p) = last_event p.
Proof. unfold enqueue. by destruct (put_nowait _ _). Qed.

Lemma queue_enqueue ev p :
  callback_queue (enqueue ev p) =
  if q_full (callback_queue p) then callback_queue p
  else {| q_items := q_items (callback_queue p) ++ [ev];
          q_maxsize := q_maxsize (callback_queue p) |}.
Proof. unfold enqueue, put_nowait. by destruct (q_full _). Qed.

Lemma same_as_last_after_emit env caller ty text w :
  same_as_last (self (after_emit env caller ty text w)) ty text = true.
Proof.
  unfold after_emit. cbn [self].
  destruct (same_as_last (self w) ty text) eqn:Hs; [exact Hs|].
  unfold same_as_last. rewrite last_event_enqueue. cbn [last_event set_last_event].
  rewrite lookup_insert_eq. apply py_eq_refl.
Qed.

Lemma final_queue_event env caller ty text w :
  final (queue_event env caller ty text w) = after_emit env caller ty text w.
Proof.
  rewrite queue_event_eq.
  destruct (same_as_last _ _ _); [reflexivity|].
  by destruct (bool_decide _).
Qed.

(** An emit of a type other than [error] returns. *)
Lemma queue_event_returns env caller ty text w :
  ty ≠ "error" ->
  queue_event env caller ty text w = Return tt (after_emit env caller ty text w).
Proof.
  intros Hne. rewrite queue_event_eq.
  rewrite (bool_decide_eq_false_2 _ Hne). by destruct (same_as_last _ _ _).
Qed.

(** A repeated emit changes nothing but the log. *)
Lemma queue_event_repeat env caller ty text w :
  same_as_last (self w) ty text = true ->
  queue_event env caller ty text w
  = Return tt {| self := self w; calls := calls w ++ [CQueueEvent ty text] |}.
Proof.
  intros Hs. rewrite queue_event_eq, Hs. unfold after_emit. by rewrite Hs.
Qed.

(** Running the straight-line part of a method: the sequencing is
    unfolded and every emit of a type other than [error] is replaced by
    the world it ends in. *)
Ltac run_emits :=
  unfold lift, modify, bind, ret, raise; cbn [self calls];
  rewrite ?queue_event_returns by discriminate.

(** Reading an attribute through the worlds of emits. *)
Ltac through_emits lem :=
  rewrite ?(proj1 (lem _ _ _ _ _)),
          ?(proj1 (proj2 (lem _ _ _ _ _))),
          ?(proj2 (proj2 (lem _ _ _ _ _))).

(** ** Delivered events on an unbounded queue *)

Lemma texts_of_app ty a b :
  texts_of ty (a ++ b) = (texts_of ty a ++ texts_of ty b)%list.
Proof. unfold texts_of. by rewrite List.filter_app, map_app. Qed.

Lemma texts_of_one ty ty' v :
  texts_of ty [(ty', v)] = if bool_decide (ty' = ty) then [v] else [].
Proof. unfold texts_of. simpl. by destruct (bool_decide _). Qed.

Lemma no_repeat_snoc l x :
  no_repeat l -> (forall v, last l = Some v -> py_eq v x = false) ->
  no_repeat (l ++ [x]).
Proof.
  induction l as [|a l IH]; intros Hl Hlast; [exact I|].
  destruct l as [|b l].
  - simpl. split; [|exact I]. by apply Hlast.
  - destruct Hl as [Hab Hl]. change (py_eq a b = false /\ no_repeat ((b :: l) ++ [x])).
    split; [exact Hab|]. apply IH; [exact Hl|]. intros v Hv. by apply Hlast.
Qed.

Lemma q_full_unbounded q : q_maxsize q = 0%nat -> q_full q = false.
Proof. unfold q_full. by intros ->. Qed.

Lemma dedup_inv_init h : dedup_inv (init_world h {| q_items := []; q_maxsize := 0 |}).
Proof.
  split; [reflexivity|]. split; [apply lookup_empty|].
  intros ty. split; [exact I|]. intros v Hv. discriminate Hv.
Qed.

(** The queue after an emit that is not a repeat, on an unbounded queue. *)
Lemma items_after_emit env caller ty text w :
  q_maxsize (callback_queue (self w)) = 0%nat ->
  same_as_last (self w) ty text = false ->
  q_items (callback_queue (self (after_emit env caller ty text w)))
  = (q_items (callback_queue (self w)) ++ [(ty, pushed_text env caller ty text)])%list.
Proof.
  intros Hm Hs. unfold after_emit. cbn [self]. rewrite Hs, queue_enqueue.
  cbn [callback_queue set_last_event]. by rewrite (q_full_unbounded _ Hm).
Qed.

Lemma no_repeat_after_emit env caller ty text w :
  dedup_inv w ->
  forall ty', no_repeat (texts_of ty'
                (q_items (callback_queue (self (after_emit env caller ty text w))))).
Proof.
  intros (Hm & Herr & Hinv) ty'.
  destruct (same_as_last (self w) ty text) eqn:Hs.
  { unfold after_emit. cbn [self]. rewrite Hs. apply Hinv. }
  rewrite items_after_emit by done.
  rewrite texts_of_app, texts_of_one.
  destruct (Hinv ty') as [Hnr Hlast].
  case_bool_decide as Hty; [|by rewrite app_nil_r].
  subst ty'. apply no_repeat_snoc; [exact Hnr|].
  intros v Hv. apply Hlast in Hv.
  unfold same_as_last in Hs. rewrite Hv in Hs.
  unfold pushed_text. case_bool_decide as He; [|exact Hs].
  subst ty. congruence.
Qed.

Lemma dedup_inv_after_emit env caller ty text w :
  ty ≠ "error" -> dedup_inv w -> dedup_inv (after_emit env caller ty text w).
Proof.
  intros Hne Hw. pose proof (no_repeat_after_emit env caller ty text w Hw) as Hnr.
  destruct Hw as (Hm & Herr & Hinv).
  destruct (same_as_last (self w) ty text) eqn:Hs.
  { unfold after_emit. cbn [self]. rewrite Hs. by split. }
  split; [|split].
  - unfold after_emit. cbn [self]. rewrite Hs, queue_enqueue.
    cbn [callback_queue set_last_event]. by rewrite (q_full_unbounded _ Hm).
  - unfold after_emit. cbn [self]. rewrite Hs, last_event_enqueue.
    cbn [last_event set_last_event]. by rewrite lookup_insert_ne.
  - intros ty'. split; [apply Hnr|].
    rewrite items_after_emit by done.
    unfold after_emit. cbn [self]. rewrite Hs, last_event_enqueue.
    cbn [last_event set_last_event].
    rewrite texts_of_app, texts_of_one.
    unfold pushed_text. rewrite (bool_decide_eq_false_2 _ Hne).
    case_bool_decide as Hty.
    + subst ty'. rewrite last_snoc, lookup_insert_eq. done.
    + rewrite app_nil_r, lookup_insert_ne by done. apply Hinv.
Qed.

Lemma emit_all_no_repeat env es w :
  dedup_inv w ->
  forall ty, no_repeat (texts_of ty (q_items (callback_queue (self (final (emit_all env es w)))))).
Proof.
  revert w. induction es as [|[caller [ty text]] es IH]; intros w Hw ty'.
  - apply Hw.
  - unfold emit_all. simpl. unfold bind at 1.
    destruct (decide (ty = "error")) as [->|Hne].
    + pose proof (final_queue_event env caller "error" text w) as Hf.
      destruct (queue_event env caller "error" text w) as [a w'|e w'|c w'] eqn:Hq;
        simpl in Hf; subst w'.
      * rewrite queue_event_eq in Hq.
        destruct Hw as (Hm & Herr & Hinv).
        unfold same_as_last in Hq. rewrite Herr in Hq. discriminate Hq.
      * simpl. by apply no_repeat_after_emit.
      * simpl. by apply no_repeat_after_emit.
    + rewrite queue_event_returns by done.
      apply (IH (after_emit env caller ty text w)).
      by apply dedup_inv_after_emit.
Qed.

(** ** Event de-duplication *)

(** C1 (as amended).  [queue_event] on a type whose recorded text equals
    the new text returns without touching the queue or the record.
    Otherwise it records the new text and makes one best-effort push: the
    queue gains [(type, text)] (for [error], the text extended with the
    caller's location) unless it is full, in which case the event is
    dropped.  An identical emit that follows immediately pushes nothing,
    so the two together enqueue at most one event, and exactly one when
    the first was no repeat and the queue had room.  On an unbounded
    queue, where nothing is dropped, the events delivered for one type
    never carry equal texts twice in a row. *)
Theorem queue_event_dedup env caller ty text w :
  let o := queue_event env caller ty text w in
  let q := callback_queue (self w) in
  let q' := callback_queue (self (final o)) in
  (same_as_last (self w) ty text = true ->
     o = Return tt {| self := self w; calls := calls w ++ [CQueueEvent ty text] |})
  /\ (same_as_last (self w) ty text = false ->
        last_event (self (final o)) = <[ty := text]> (last_event (self w)) /\
        q_items q' =
          if q_full q then q_items q
          else (q_items q ++ [(ty, pushed_text env caller ty text)])%list)
  /\ (forall caller',
        queue_event env caller' ty text (final o)
        = Return tt {| self := self (final o);
                       calls := calls (final o) ++ [CQueueEvent ty text] |})
  /\ length (q_items q')
     = (length (q_items q)
        + if same_as_last (self w) ty text || q_full q then 0 else 1)%nat
  /\ (forall es h ty',
        no_repeat (texts_of ty' (q_items (callback_queue (self (final
          (emit_all env es (init_world h {| q_items := []; q_maxsize := 0 |}))))))))
.
Proof.
  cbv zeta. rewrite final_queue_event.
  assert (Hitems : same_as_last (self w) ty text = false ->
    q_items (callback_queue (self (after_emit env caller ty text w))) =
      if q_full (callback_queue (self w)) then q_items (callback_queue (self w))
      else (q_items (callback_queue (self w)) ++ [(ty, pushed_text env caller ty text)])%list).
  { intros Hs. unfold after_emit. cbn [self]. rewrite Hs, queue_enqueue.
    cbn [callback_queue set_last_event]. by destruct (q_full _). }
  split; [|split; [|split; [|split]]].
  - apply queue_event_repeat.
  - intros Hs. split; [|by apply Hitems].
    unfold after_emit. cbn [self]. by rewrite Hs, last_event_enqueue.
  - intros caller'. apply queue_event_repeat, same_as_last_after_emit.
  - destruct (same_as_last (self w) ty text) eqn:Hs.
    + unfold after_emit. cbn [self]. rewrite Hs. simpl. lia.
    + rewrite Hitems by done. simpl. destruct (q_full _); [lia|].
      rewrite length_app. simpl. lia.
  - intros es h ty'. apply emit_all_no_repeat, dedup_inv_init.
Qed.

(** C1 as the specification states it does not hold on a full queue: an
    emit that is no repeat pushes nothing, and the same pair emitted twice
    in a row enqueues no event at all. *)
Lemma queue_event_full_queue_enqueues_nothing :
  let w := init_world None {| q_items := [("info", PStr "x")]; q_maxsize := 1 |} in
  let emit := queue_event plain_env (code plain_env "cb_event" 225) "action" (PStr "a") in
  same_as_last (self w) "action" (PStr "a") = false /\
  exists w1 w2,
    emit w = Return tt w1 /\ emit w1 = Return tt w2 /\
    q_items (callback_queue (self w1)) = [("info", PStr "x")] /\
    q_items (callback_queue (self w2)) = [("info", PStr "x")].
Proof.
  cbv zeta. split; [reflexivity|].
  eexists _, _. rewrite !queue_event_returns by discriminate.
  split; [reflexivity|]. split; [reflexivity|]. split; reflexivity.
Qed.

Lemma queue_event_dedup_witness :
  let w := init_world None {| q_items := []; q_maxsize := 2 |} in
  let caller := code plain_env "cb_event" 225 in
  let o := queue_event plain_env caller "action" (PStr "a") w in
  q_items (callback_queue (self (final o))) = [("action", PStr "a")] /\
  queue_event plain_env caller "action" (PStr "a") (final o)
  = Return tt {| self := self (final o);
                 calls := calls (final o) ++ [CQueueEvent "action" (PStr "a")] |}.
Proof.
  cbv zeta.
  pose proof (queue_event_dedup plain_env (code plain_env "cb_event" 225)
                "action" (PStr "a")
                (init_world None {| q_items := []; q_maxsize := 2 |})) as H.
  cbv zeta in H. destruct H as (_ & Hnew & Hagain & _).
  split.
  - destruct (Hnew eq_refl) as [_ Hq]. exact Hq.
  - apply Hagain.
Defined.

(** ** The fatal event *)

Lemma proc_run_exited code q evs p :
  proc_run (Exited code q) evs p -> evs = [] /\ p = Exited code q.
Proof. intros H. by inversion H. Qed.

(** A blocked process exits only with its code, on a drained queue, and
    after the consumer has taken every item that was in the queue. *)
Lemma proc_run_exit_inv p evs p' :
  proc_run p evs p' ->
  forall code q code' q',
    p = Blocked code q -> p' = Exited code' q' ->
    code' = code /\ q_drained q' /\ evs = q_items q.
Proof.
  induction 1 as [p|code0 ev items m evs p Hrun IH|code0 q0 evs p Hd Hrun IH];
    intros code q code' q' Hp Hp'.
  - congruence.
  - injection Hp as <- <-. destruct (IH _ _ _ _ eq_refl Hp') as (-> & Hq & ->).
    by repeat split.
  - injection Hp as <- <-. apply proc_run_exited in Hrun as [-> ->].
    injection Hp' as <- <-. by repeat split.
Qed.

(** The consumer can always drain the queue, and the process then exits. *)
Lemma proc_run_drain code items m :
  proc_run (Blocked code {| q_items := items; q_maxsize := m |}) items
           (Exited code {| q_items := []; q_maxsize := m |}).
Proof.
  induction items as [|ev items IH].
  - apply run_exit; [reflexivity|apply run_stop].
  - by apply run_take.
Qed.

(** C2 (as amended).  An [error] whose text equals the one last recorded
    for [error] is a repeat: the call returns, nothing is pushed and the
    process goes on.  Every other [error] emit makes its best-effort push
    (on a queue with room the event, extended with the caller's location,
    is at the back of the queue) and then reaches [join(); sys.exit(1)]:
    the process exits only once the consumer has taken everything in the
    queue, and then with status 1. *)
Theorem error_event_fatal env caller text w :
  let o := queue_event env caller "error" text w in
  let q := callback_queue (self w) in
  let q' := callback_queue (self (final o)) in
  (same_as_last (self w) "error" text = true ->
     o = Return tt {| self := self w; calls := calls w ++ [CQueueEvent "error" text] |})
  /\ (same_as_last (self w) "error" text = false ->
        o = JoinExit 1 (final o) /\
        proc_of o = Some (Blocked 1 q') /\
        (q_full q = false ->
         q_items q' = (q_items q ++ [("error", PStr (error_text env caller text))])%list) /\
        (forall evs code qe,
           proc_run (Blocked 1 q') evs (Exited code qe) ->
           code = 1 /\ code ≠ 0 /\ q_drained qe /\ evs = q_items q') /\
        proc_run (Blocked 1 q') (q_items q')
                 (Exited 1 {| q_items := []; q_maxsize := q_maxsize q' |})).
Proof.
  cbv zeta. split; [apply queue_event_repeat|].
  intros Hs. rewrite final_queue_event.
  assert (Ho : queue_event env caller "error" text w
               = JoinExit 1 (after_emit env caller "error" text w)).
  { rewrite queue_event_eq, Hs. reflexivity. }
  rewrite Ho. split; [reflexivity|]. split; [reflexivity|]. split; [|split].
  - intros Hfull. unfold after_emit. cbn [self].
    rewrite Hs, queue_enqueue. cbn [callback_queue set_last_event].
    by rewrite Hfull.
  - intros evs code qe Hrun.
    destruct (proc_run_exit_inv _ _ _ Hrun _ _ _ _ eq_refl eq_refl) as (-> & Hd & ->).
    by repeat split.
  - destruct (callback_queue _) as [items m]. apply proc_run_drain.
Qed.

(** C2 as the specification states it does not hold for a repeated error
    text: the second call returns to its caller, pushes nothing and does
    not exit. *)
Lemma repeated_error_returns :
  let caller := code plain_env "do_install" 117 in
  let w := init_world None {| q_items := []; q_maxsize := 0 |} in
  let w1 := final (queue_event plain_env caller "error" (PStr "boom") w) in
  last_event (self w1) !! "error" = Some (PStr "boom") /\
  queue_event plain_env caller "error" (PStr "boom") w1
  = Return tt {| self := self w1;
                 calls := calls w1 ++ [CQueueEvent "error" (PStr "boom")] |}.
Proof.
  cbv zeta. split; [reflexivity|].
  apply queue_event_repeat. reflexivity.
Qed.

Lemma error_event_fatal_witness :
  let caller := code plain_env "do_install" 117 in
  let w := init_world None {| q_items := [("info", PStr "x")]; q_maxsize := 0 |} in
  let o := queue_event plain_env caller "error" (PStr "boom") w in
  o = JoinExit 1 (final o) /\
  q_items (callback_queue (self (final o)))
  = [("info", PStr "x"); ("error", PStr "boom: do_install in pac.py:117")].
Proof.
  cbv zeta.
  pose proof (error_event_fatal plain_env (code plain_env "do_install" 117)
                (PStr "boom")
                (init_world None {| q_items := [("info", PStr "x")]; q_maxsize := 0 |}))
    as H.
  cbv zeta in H. destruct H as [_ H].
  destruct (H eq_refl) as (Ho & _ & Hq & _).
  split; [exact Ho|]. exact (Hq eq_refl).
Defined.

(** ** A dropped event is not retried *)

(** C10.  The text is recorded before the push is tried.  When the push
    finds the queue full the event is dropped, yet it stays recorded as
    the last one of its type; the same pair emitted again, whatever room
    the queue has by then, returns without pushing. *)
Theorem dropped_event_is_lost env caller ty text w :
  q_full (callback_queue (self w)) = true ->
  same_as_last (self w) ty text = false ->
  let w1 := final (queue_event env caller ty text w) in
  q_items (callback_queue (self w1)) = q_items (callback_queue (self w)) /\
  last_event (self w1) !! ty = Some text /\
  forall caller' q',
    queue_event env caller' ty text (with_queue q' w1)
    = Return tt {| self := self (with_queue q' w1);
                   calls := calls w1 ++ [CQueueEvent ty text] |}.
Proof.
  intros Hfull Hs. cbv zeta. rewrite final_queue_event.
  assert (Hlast : last_event (self (after_emit env caller ty text w))
                  = <[ty := text]> (last_event (self w))).
  { unfold after_emit. cbn [self]. by rewrite Hs, last_event_enqueue. }
  split; [|split].
  - unfold after_emit. cbn [self]. rewrite Hs, queue_enqueue.
    cbn [callback_queue set_last_event]. by rewrite Hfull.
  - rewrite Hlast. apply lookup_insert_eq.
  - intros caller' q'.
    rewrite (queue_event_repeat env caller' ty text (with_queue q' _)).
    + reflexivity.
    + unfold same_as_last, with_queue. cbn [self last_event set_callback_queue].
      rewrite Hlast, lookup_insert_eq. apply py_eq_refl.
Qed.

Lemma dropped_event_is_lost_witness :
  let caller := code plain_env "cb_dl" 296 in
  let w := init_world None {| q_items := [("info", PStr "x")]; q_maxsize := 1 |} in
  let w1 := final (queue_event plain_env caller "percent" (PInt 7) w) in
  q_items (callback_queue (self w1)) = [("info", PStr "x")] /\
  queue_event plain_env caller "percent" (PInt 7)
    (with_queue {| q_items := []; q_maxsize := 1 |} w1)
  = Return tt {| self := self (with_queue {| q_items := []; q_maxsize := 1 |} w1);
                 calls := calls w1 ++ [CQueueEvent "percent" (PInt 7)] |}.
Proof.
  cbv zeta.
  destruct (dropped_event_is_lost plain_env (code plain_env "cb_dl" 296)
              "percent" (PInt 7)
              (init_world None {| q_items := [("info", PStr "x")]; q_maxsize := 1 |})
              eq_refl eq_refl) as (Hq & _ & Hagain).
  split; [exact Hq|]. apply Hagain.
Defined.

(** ** Transactions *)

Lemma finalize_eq t w :
  finalize t w =
  let w' := {| self := self w; calls := calls w ++ finalize_calls t |} in
  match t_release t with
  | Done => Return (both_done t) w'
  | Fails => Raise AlpmError w'
  end.
Proof.
  unfold finalize, finalize_calls, both_done, try_except_alpm, engine_op,
    bind, call, ret, raise.
  destruct (t_prepare t), (t_commit t), (t_release t);
    cbn [self calls]; rewrite <- ?app_assoc; reflexivity.
Qed.

(** C3 (as amended).  [finalize] calls [prepare], then [commit] when
    [prepare] returned, and on either path calls [release] on the
    transaction exactly once.  When [release] returns, [finalize] returns
    [True] if both steps succeeded and [False] if one of them raised the
    engine error; an engine error raised by [release] itself is not caught
    and leaves [finalize]. *)
Theorem finalize_releases_once t w :
  let o := finalize t w in
  calls (final o) = (calls w ++ finalize_calls t)%list
  /\ length (List.filter (is_release (t_id t)) (finalize_calls t)) = 1%nat
  /\ self (final o) = self w
  /\ (t_release t = Done -> o = Return (both_done t) (final o))
  /\ (t_release t = Fails -> o = Raise AlpmError (final o))
  /\ (both_done t = true <-> t_prepare t = Done /\ t_commit t = Done).
Proof.
  cbv zeta. rewrite finalize_eq. cbv zeta.
  split; [by destruct (t_release t)|].
  split.
  { unfold finalize_calls.
    destruct (t_prepare t), (t_commit t); simpl;
      rewrite bool_decide_eq_true_2 by done; reflexivity. }
  split; [by destruct (t_release t)|].
  split; [by intros ->|]. split; [by intros ->|].
  unfold both_done.
  destruct (t_prepare t), (t_commit t); split; try done; by intros [? ?].
Qed.

(** C3 as the specification states it does not hold for a transaction
    whose [release] raises: [prepare] raises the engine error, the handler
    calls [release], and the error of [release] leaves [finalize] instead
    of [False]. *)
Lemma finalize_release_raises :
  let t := {| t_id := 7; t_add_pkg := fun _ => Done;
              t_prepare := Fails; t_commit := Done; t_release := Fails |} in
  let w := init_world None unbounded in
  finalize t w
  = Raise AlpmError {| self := self w;
                       calls := [CPrepare 7; CPrintExc; CRelease 7] |}.
Proof. reflexivity. Qed.

Lemma finalize_releases_once_witness :
  let t := {| t_id := 7; t_add_pkg := fun _ => Done;
              t_prepare := Done; t_commit := Fails; t_release := Done |} in
  let w := init_world None unbounded in
  finalize t w = Return false (final (finalize t w)) /\
  calls (final (finalize t w)) = [CPrepare 7; CCommit 7; CPrintExc; CRelease 7].
Proof.
  cbv zeta.
  pose proof (finalize_releases_once
    {| t_id := 7; t_add_pkg := fun _ => Done;
       t_prepare := Done; t_commit := Fails; t_release := Done |}
    (init_world None unbounded)) as H.
  cbv zeta in H. destruct H as (Hcalls & _ & _ & Hret & _).
  split; [exact (Hret eq_refl)|exact Hcalls].
Defined.

(** ** Installing *)

(** C4.  With no names [do_install] logs and returns 1: the instance is
    untouched and the only calls are the two log lines, so no engine
    call, no lookup and no transaction. *)
Theorem do_install_no_targets env globals conflicts options w :
  do_install env globals [] conflicts options w
  = Return 1
      {| self := self w;
         calls := calls w ++
           [CLogging "debug" "Install a list of packages like pacman -S";
            CLogging "error" "No targets specified"] |}.
Proof.
  unfold do_install, logging, bind, call, ret. cbn [self calls length].
  rewrite bool_decide_eq_true_2 by done. cbn [self calls].
  rewrite <- app_assoc. reflexivity.
Qed.

Lemma load_global_handle w :
  load_global pac_globals "handle" w = Raise (NameError "handle") w.
Proof. reflexivity. Qed.

(** C9.  In the namespace of the module the name [handle] is bound
    nowhere.  For a non-empty list of names [do_install] therefore raises
    [NameError] right after its first log line, before any engine call;
    [get_group_pkgs] raises it on every call; and [do_install] never
    returns an exit code for such a list. *)
Theorem do_install_name_error env pkgs conflicts options w :
  pkgs ≠ [] ->
  do_install env pac_globals pkgs conflicts options w
  = Raise (NameError "handle")
      {| self := self w;
         calls := calls w ++
           [CLogging "debug" "Install a list of packages like pacman -S"] |}
  /\ (forall group w', get_group_pkgs pac_globals group w' = Raise (NameError "handle") w')
  /\ (forall exit_code w',
        do_install env pac_globals pkgs conflicts options w ≠ Return exit_code w').
Proof.
  intros Hne.
  assert (Hrun : do_install env pac_globals pkgs conflicts options w
    = Raise (NameError "handle")
        {| self := self w;
           calls := calls w ++
             [CLogging "debug" "Install a list of packages like pacman -S"] |}).
  { unfold do_install, logging. unfold bind at 1. unfold call at 1.
    rewrite bool_decide_eq_false_2 by (by destruct pkgs).
    unfold bind at 1. by rewrite load_global_handle. }
  split; [exact Hrun|]. split.
  - intros group w'. unfold get_group_pkgs, bind. by rewrite load_global_handle.
  - intros exit_code w'. by rewrite Hrun.
Qed.

Lemma do_install_name_error_witness :
  do_install plain_env pac_globals ["base"] [] no_options
    (init_world (Some core_handle) unbounded)
  = Raise (NameError "handle")
      {| self := init (Some core_handle) unbounded;
         calls := calls (init_world (Some core_handle) unbounded) ++
           [CLogging "debug" "Install a list of packages like pacman -S"] |}.
Proof.
  refine (proj1 (do_install_name_error plain_env ["base"] [] no_options
                   (init_world (Some core_handle) unbounded) _)).
  discriminate.
Defined.

(** ** Progress of a target *)

Lemma bind_return_inv {A B} (m : M A) (k : A -> M B) w b w' :
  bind m k w = Return b w' ->
  exists a w1, m w = Return a w1 /\ k a w1 = Return b w'.
Proof. unfold bind. destruct (m w) as [a w1| |]; [eauto|done|done]. Qed.

Lemma bind_returns {A B} (m : M A) (k : A -> M B) w a w1 :
  m w = Return a w1 -> bind m k w = k a w1.
Proof. unfold bind. by intros ->. Qed.

Lemma after_emit_progress env caller ty text w :
  last_target (self (after_emit env caller ty text w)) = last_target (self w) /\
  last_percent (self (after_emit env caller ty text w)) = last_percent (self w) /\
  last_i (self (after_emit env caller ty text w)) = last_i (self w).
Proof.
  unfold after_emit, enqueue. cbn [self].
  destruct (same_as_last _ _ _); [done|]. by destruct (put_nowait _ _).
Qed.

Lemma after_emit_calls env caller ty text w :
  calls (after_emit env caller ty text w) = (calls w ++ [CQueueEvent ty text])%list.
Proof. reflexivity. Qed.

Lemma target_not_empty target :
  target ≠ "" -> bool_decide (String.length target = 0%nat) = false.
Proof. intros H. apply bool_decide_eq_false_2. by destruct target. Qed.

Lemma py_truediv_100 percent : py_truediv percent 100 = inr (py_quot percent 100).
Proof. reflexivity. Qed.

Lemma py_truediv_nonzero a b : b ≠ 0 -> py_truediv a b = inr (py_quot a b).
Proof. intros H. unfold py_truediv. by rewrite bool_decide_eq_false_2. Qed.

Lemma cb_progress_new_target env target percent n i text w :
  target ≠ "" -> n ≠ 0 ->
  is_new_target (self w) target percent = true ->
  py_format env (gettext env "Installing %s (%d/%d)") [PStr target; PInt i; PInt n]
  = inr text ->
  cb_progress env target percent n i w
  = Return tt (new_target_world env target text percent n i w).
Proof.
  intros Ht Hn Hnew Hfmt. unfold cb_progress, new_target_world. cbv zeta.
  rewrite (target_not_empty _ Ht).
  unfold bind at 1. unfold bind at 1. unfold get_self at 1. cbv beta iota.
  rewrite Hnew. unfold format. rewrite Hfmt, py_truediv_100, (py_truediv_nonzero _ _ Hn).
  run_emits. reflexivity.
Qed.

Lemma cb_progress_same_target env target percent n i w :
  target ≠ "" ->
  is_new_target (self w) target percent = false ->
  cb_progress env target percent n i w
  = Return tt {| self := set_last_percent percent (self w); calls := calls w |}.
Proof.
  intros Ht Hnew. unfold cb_progress. cbv zeta.
  rewrite (target_not_empty _ Ht).
  unfold bind at 1. unfold bind at 1. unfold get_self at 1. cbv beta iota.
  rewrite Hnew. reflexivity.
Qed.

Lemma new_target_world_fields env target text percent n i w :
  last_target (self (new_target_world env target text percent n i w)) = Some target /\
  last_percent (self (new_target_world env target text percent n i w)) = percent /\
  calls (new_target_world env target text percent n i w)
  = (calls w ++ new_target_calls text percent n i)%list.
Proof.
  unfold new_target_world. cbv zeta. cbn [self calls].
  split; [|split].
  - cbn [last_target set_last_percent].
    rewrite !(proj1 (after_emit_progress _ _ _ _ _)). reflexivity.
  - reflexivity.
  - rewrite !after_emit_calls. cbn [calls]. unfold new_target_calls.
    rewrite <- !app_assoc. reflexivity.
Qed.

Lemma cb_progress_sets_percent env target percent n i w w' :
  cb_progress env target percent n i w = Return tt w' ->
  last_percent (self w') = percent.
Proof.
  unfold cb_progress. cbv zeta. intros H.
  apply bind_return_inv in H as (a & w1 & _ & H).
  unfold modify in H. by injection H as <-.
Qed.

Lemma cb_progress_returns env target percent n i w :
  translations_ok env -> target = "" \/ n ≠ 0 ->
  exists w', cb_progress env target percent n i w = Return tt w'.
Proof.
  intros [Hinst Hprog] Hcase.
  destruct (decide (target = "")) as [->|Ht].
  - destruct (Hprog n) as [text Htext].
    unfold cb_progress. cbv zeta.
    rewrite bool_decide_eq_true_2 by done.
    unfold bind at 1. unfold bind at 1. unfold get_self at 1. cbv beta iota.
    unfold format. rewrite Htext, py_truediv_100.
    destruct (_ || _); run_emits; eauto.
  - destruct Hcase as [?|Hn]; [done|].
    destruct (is_new_target (self w) target percent) eqn:Hnew.
    + destruct (Hinst target i n) as [text Htext].
      rewrite (cb_progress_new_target env target percent n i text) by done. eauto.
    + rewrite cb_progress_same_target by done. eauto.
Qed.

Lemma is_new_target_other s target percent :
  last_target s ≠ Some target -> is_new_target s target percent = true.
Proof.
  intros H. unfold is_new_target. by rewrite (bool_decide_eq_false_2 _ H).
Qed.

Lemma is_new_target_lower s target percent :
  percent < last_percent s -> is_new_target s target percent = true.
Proof.
  intros H. unfold is_new_target. rewrite (bool_decide_eq_true_2 _ H).
  apply orb_true_r.
Qed.

Lemma is_new_target_tracked s target percent :
  last_target s = Some target -> last_percent s <= percent ->
  is_new_target s target percent = false.
Proof.
  intros Ht Hp. unfold is_new_target.
  rewrite (bool_decide_eq_true_2 _ Ht).
  rewrite bool_decide_eq_false_2 by lia. reflexivity.
Qed.

Lemma plain_translations_ok : translations_ok plain_env.
Proof.
  split.
  - intros target i n. eexists. reflexivity.
  - intros n. eexists. reflexivity.
Qed.

(** ** Download progress *)

Lemma format_download env filename tx total :
  py_format env "Download %s: %d/%d" [PStr filename; PInt tx; PInt total]
  = inr (download_text filename tx total).
Proof.
  unfold download_text. rewrite <- (append_empty_r (pretty total)). reflexivity.
Qed.

Lemma after_emit_dl env caller ty text w :
  last_dl_filename (self (after_emit env caller ty text w)) = last_dl_filename (self w) /\
  last_dl_total (self (after_emit env caller ty text w)) = last_dl_total (self w) /\
  last_dl_progress (self (after_emit env caller ty text w)) = last_dl_progress (self w).
Proof.
  unfold after_emit, enqueue. cbn [self].
  destruct (same_as_last _ _ _); [done|]. by destruct (put_nowait _ _).
Qed.

Lemma is_new_file_false s filename total :
  is_new_file s filename total = false ->
  last_dl_filename s = Some filename /\ last_dl_total s = Some total.
Proof.
  unfold is_new_file. intros H. apply orb_false_elim in H as [Hf Ht].
  apply negb_false_iff in Hf, Ht.
  by apply bool_decide_eq_true in Hf, Ht.
Qed.

(** The first part always returns, with the file and its total recorded. *)
Lemma dl_new_file_returns env filename tx total w :
  exists w1,
    dl_new_file env filename tx total w = Return tt w1 /\
    last_dl_filename (self w1) = Some filename /\
    last_dl_total (self w1) = Some total /\
    last_dl_progress (self w1)
    = (if is_new_file (self w) filename total then Some 0
       else last_dl_progress (self w)) /\
    calls w1
    = (calls w ++
       if is_new_file (self w) filename total
       then [CQueueEvent "action" (PStr (gettext env (download_text filename tx total)))]
       else [])%list.
Proof.
  unfold dl_new_file. cbv zeta. unfold bind at 1. unfold get_self at 1.
  cbv beta iota. destruct (is_new_file (self w) filename total) eqn:Hnew.
  - unfold format. rewrite format_download.
    run_emits. eexists. split; [reflexivity|].
    through_emits after_emit_dl. by repeat split.
  - destruct (is_new_file_false _ _ _ Hnew) as [Hf Ht].
    exists w. split; [reflexivity|]. split; [exact Hf|]. split; [exact Ht|].
    split; [reflexivity|]. by rewrite app_nil_r.
Qed.

Lemma dl_progress_known env tx total w :
  last_dl_total (self w) = Some total -> total > 0 ->
  dl_progress env tx w = Return ((tx * 25) `div` total) w.
Proof.
  intros Ht Hpos. unfold dl_progress, bind, get_self. rewrite Ht.
  by rewrite bool_decide_eq_true_2.
Qed.

Lemma dl_progress_unknown env tx total w :
  last_dl_total (self w) = Some total -> total <= 0 -> -1024 < tx ->
  dl_progress env tx w = Return (log_progress env tx) w.
Proof.
  intros Ht Hnp Htx. unfold dl_progress, bind, get_self. rewrite Ht.
  rewrite bool_decide_eq_false_2 by lia.
  by rewrite bool_decide_eq_false_2 by lia.
Qed.

(** The third part on a state with a recorded progress. *)
Lemma dl_gate_returns env filename tx total progress w last :
  last_dl_progress (self w) = Some last ->
  exists w',
    dl_gate env filename tx total progress w = Return tt w' /\
    (progress > last ->
       calls w' = (calls w ++ gate_calls env filename tx total progress)%list /\
       last_dl_progress (self w') = Some progress /\
       last_dl_filename (self w') = last_dl_filename (self w) /\
       last_dl_total (self w') = last_dl_total (self w)) /\
    (progress <= last -> w' = w).
Proof.
  intros Hlast. unfold dl_gate. cbv zeta. unfold bind at 1. unfold get_self at 1.
  cbv beta iota. rewrite Hlast.
  destruct (decide (progress > last)) as [Hgt|Hle].
  - rewrite (bool_decide_eq_true_2 _ Hgt).
    unfold format. rewrite format_download.
    run_emits. eexists. split; [reflexivity|]. split; [|lia].
    intros _. rewrite !after_emit_calls. through_emits after_emit_dl.
    cbn [self calls]. unfold gate_calls. rewrite <- app_assoc.
    by repeat split.
  - rewrite (bool_decide_eq_false_2 _ Hle).
    exists w. split; [reflexivity|]. split; [done|]. reflexivity.
Qed.

Lemma cb_dl_after_new_file env filename tx total w w1 progress :
  dl_new_file env filename tx total w = Return tt w1 ->
  dl_progress env tx w1 = Return progress w1 ->
  cb_dl env filename tx total w = dl_gate env filename tx total progress w1.
Proof.
  intros Hnew Hprog. unfold cb_dl.
  rewrite (bind_returns _ _ _ _ _ Hnew). by rewrite (bind_returns _ _ _ _ _ Hprog).
Qed.

(** C7.  With [total > 0] and [0 <= transferred <= total], [cb_dl]
    records the total, computes [transferred * 25 // total] as progress
    and hands this value to its gate; the value lies in 0..25 and does not
    decrease when [transferred] grows. *)
Theorem download_progress_bounded env filename tx total w :
  total > 0 -> 0 <= tx <= total ->
  exists w1,
    dl_new_file env filename tx total w = Return tt w1 /\
    last_dl_total (self w1) = Some total /\
    dl_progress env tx w1 = Return ((tx * 25) `div` total) w1 /\
    cb_dl env filename tx total w
    = dl_gate env filename tx total ((tx * 25) `div` total) w1 /\
    0 <= (tx * 25) `div` total <= 25 /\
    (forall tx', tx <= tx' -> (tx * 25) `div` total <= (tx' * 25) `div` total).
Proof.
  intros Hpos Htx.
  destruct (dl_new_file_returns env filename tx total w)
    as (w1 & Hnew & _ & Htot & _ & _).
  pose proof (dl_progress_known env tx total w1 Htot Hpos) as Hprog.
  exists w1. split; [exact Hnew|]. split; [exact Htot|]. split; [exact Hprog|].
  split; [by apply cb_dl_after_new_file|]. split; [split|].
  - apply Z.div_pos; lia.
  - apply Z.div_le_upper_bound; lia.
  - intros tx' Hle. apply Z.div_le_mono; lia.
Qed.

Lemma download_progress_bounded_witness :
  exists w1,
    dl_progress plain_env 40 w1 = Return 10 w1 /\
    cb_dl plain_env "core.db" 40 100 (init_world None unbounded)
    = dl_gate plain_env "core.db" 40 100 10 w1.
Proof.
  destruct (download_progress_bounded plain_env "core.db" 40 100
              (init_world None unbounded) eq_refl)
    as (w1 & _ & _ & Hprog & Hcb & _); [lia|].
  exists w1. split; [exact Hprog|exact Hcb].
Defined.

Lemma dl_inv_init h q : dl_inv (init h q).
Proof. intros [x Hx]. discriminate Hx. Qed.

(** The reset of the percent baseline made by the new-target branch shows
    when the total is 0: the division of the third event raises, and the
    recorded percent is left at 0. *)
Lemma cb_progress_zero_total env target percent i w text :
  target ≠ "" ->
  is_new_target (self w) target percent = true ->
  py_format env (gettext env "Installing %s (%d/%d)") [PStr target; PInt i; PInt 0]
  = inr text ->
  exists w',
    cb_progress env target percent 0 i w = Raise ZeroDivisionError w' /\
    last_target (self w') = Some target /\
    last_percent (self w') = 0.
Proof.
  intros Ht Hnew Hfmt. unfold cb_progress. cbv zeta.
  rewrite (target_not_empty _ Ht).
  unfold bind at 1. unfold bind at 1. unfold get_self at 1. cbv beta iota.
  rewrite Hnew. unfold format. rewrite Hfmt, py_truediv_100.
  run_emits. eexists. split; [reflexivity|].
  through_emits after_emit_progress. by split.
Qed.

(** ** Group expansion *)

(** What the group branch of [do_install] keeps: the members whose name
    is not among the conflicts. *)
Lemma kept_members conflicts members pkg :
  In pkg (List.filter (not_in_conflicts conflicts) members)
  <-> In pkg members /\ pkg_name pkg ∉ conflicts.
Proof.
  rewrite List.filter_In. unfold not_in_conflicts.
  rewrite negb_true_iff, bool_decide_eq_false. reflexivity.
Qed.

(** C5, evaluated.  [install(["basegroup"])] with the conflicts [{B}], on
    an engine whose source [core] has the group with members A, B, C: the
    method raises [NameError] on the bare name [handle] and resolves
    nothing.  In a namespace where that name is bound to the engine handle
    the same body resolves the targets A and C, adds them to the
    transaction and returns 0. *)
Theorem group_install_name_error :
  let w := init_world (Some core_handle) unbounded in
  let bound := <["handle" := OHandle core_handle]> pac_globals in
  do_install plain_env pac_globals ["basegroup"] ["B"] no_options w
  = Raise (NameError "handle")
      {| self := self w;
         calls := calls w ++
           [CLogging "debug" "Install a list of packages like pacman -S"] |}
  /\ (exists w',
        resolve_targets plain_env bound ["basegroup"] ["B"]
          (dict_of [("core", core_db)]) [] w
        = Return [pkg_A; pkg_C] w')
  /\ (exists w',
        do_install plain_env bound ["basegroup"] ["B"] no_options w = Return 0 w' /\
        List.filter (fun c => match c with CAddPkg _ _ => true | _ => false end) (calls w')
        = [CAddPkg 1 pkg_A; CAddPkg 1 pkg_C]).
Proof.
  cbv zeta. split; [|split].
  - vm_compute. reflexivity.
  - eexists. vm_compute. reflexivity.
  - eexists. split; vm_compute; reflexivity.
Qed.

(** ** A drop between two equal events *)

(** With a bounded queue the texts delivered for one type can repeat: the
    second text is dropped on the full queue but recorded, so the first
    text, emitted again after the consumer made room, is pushed again. *)
Example equal_texts_after_a_drop :
  let caller := code plain_env "cb_event" 225 in
  let emit text := queue_event plain_env caller "action" (PStr text) in
  let w0 := init_world None {| q_items := []; q_maxsize := 1 |} in
  let w1 := final (emit "a" w0) in
  let w2 := final (emit "b" w1) in
  let w3 := with_queue {| q_items := []; q_maxsize := 1 |} w2 in
  q_items (callback_queue (self w1)) = [("action", PStr "a")] /\
  q_items (callback_queue (self w2)) = [("action", PStr "a")] /\
  q_items (callback_queue (self (final (emit "a" w3)))) = [("action", PStr "a")].
Proof. cbv zeta. repeat split; vm_compute; reflexivity. Qed.

(** ** An emitted event that is a repeat *)

(** The four samples of [pkgA] with the index and the total unchanged:
    the third sample calls the emitter with the text of the first, which
    the emitter drops as a repeat; the queue holds one [target] event. *)
Example third_sample_target_is_a_repeat :
  let w0 := init_world None unbounded in
  let run :=
    cb_progress plain_env "pkgA" 0 3 1 >>>
    cb_progress plain_env "pkgA" 10 3 1 >>>
    cb_progress plain_env "pkgA" 5 3 1 >>>
    cb_progress plain_env "pkgA" 80 3 1 in
  texts_of "target" (q_items (callback_queue (self (final (run w0)))))
  = [PStr "Installing pkgA (1/3)"].
Proof. vm_compute. reflexivity. Qed.

(** * Further properties *)

(** ** Opening a transaction *)

(** X1.  The flags handed to the engine: without options every flag is
    off; [recurseall] is only set together with [recurse]; [alldeps] and
    [allexplicit] are never set together. *)
Theorem trans_flags_consistent options :
  trans_flags no_options
  = {| cascade := false; nodeps := false; force := false; dbonly := false;
       downloadonly := false; nosave := false; recurse := false;
       recurseall := false; unneeded := false; alldeps := false;
       allexplicit := false |}
  /\ (recurseall (trans_flags options) = true -> recurse (trans_flags options) = true)
  /\ (alldeps (trans_flags options) && allexplicit (trans_flags options) = false).
Proof.
  split; [reflexivity|]. split.
  - unfold trans_flags. cbn [recurse recurseall]. intros H.
    apply bool_decide_eq_true in H. apply bool_decide_eq_true_2. lia.
  - unfold trans_flags. cbn [alldeps allexplicit].
    destruct (o_mode options) as [m|]; [|reflexivity].
    case_bool_decide as H1; [|reflexivity].
    injection H1 as ->. reflexivity.
Qed.

Lemma init_transaction_eq options w :
  init_transaction options w =
  match handle (self w) with
  | None => Raise (AttributeError "handle") w
  | Some h =>
      let w' := {| self := self w; calls := calls w ++ open_calls options |} in
      match h_init_transaction h (trans_flags options) with
      | Some t => Return t w'
      | None => Raise AlpmError w'
      end
  end.
Proof.
  unfold init_transaction, self_handle, bind, get_self, call, ret, raise, open_calls.
  cbn [self calls]. destruct (handle (self w)) as [h|] eqn:Hh; [|reflexivity].
  do 4 (cbn [self calls]; rewrite ?Hh; cbv beta iota).
  cbn [self calls]. rewrite <- !app_assoc.
  destruct (h_init_transaction h (trans_flags options)); reflexivity.
Qed.

(** X2.  On an instance built without a configuration path the attribute
    [handle] does not exist: [init_transaction] raises [AttributeError]
    at its first statement, [do_refresh] likewise, and neither has called
    anything. *)
Theorem no_handle_no_transaction options w :
  handle (self w) = None ->
  init_transaction options w = Raise (AttributeError "handle") w /\
  do_refresh options w = Raise (AttributeError "handle") w.
Proof.
  intros Hh. split.
  - by rewrite init_transaction_eq, Hh.
  - unfold do_refresh, self_handle, bind, get_self. by rewrite Hh.
Qed.

Lemma no_handle_no_transaction_witness :
  init_transaction no_options (init_world None unbounded)
  = Raise (AttributeError "handle") (init_world None unbounded).
Proof.
  exact (proj1 (no_handle_no_transaction no_options (init_world None unbounded) eq_refl)).
Defined.

(** X3.  With a handle, [init_transaction] sets the four callbacks on it
    and then opens the transaction with the flags of the options; it
    leaves the instance as it was, and it returns the engine's transaction
    or passes the engine's error on. *)
Theorem init_transaction_opens options w h :
  handle (self w) = Some h ->
  let o := init_transaction options w in
  final o = {| self := self w; calls := calls w ++ open_calls options |} /\
  (forall t, h_init_transaction h (trans_flags options) = Some t ->
             o = Return t (final o)) /\
  (h_init_transaction h (trans_flags options) = None ->
   o = Raise AlpmError (final o)).
Proof.
  intros Hh. cbv zeta. rewrite init_transaction_eq, Hh. cbv zeta.
  destruct (h_init_transaction h (trans_flags options)) as [t|].
  - split; [reflexivity|]. split; [|done]. by intros t' [= <-].
  - split; [reflexivity|]. split; [done|]. reflexivity.
Qed.

Lemma init_transaction_opens_witness :
  init_transaction no_options (init_world (Some core_handle) unbounded)
  = Return good_transaction
      (final (init_transaction no_options (init_world (Some core_handle) unbounded))).
Proof.
  pose proof (init_transaction_opens no_options
                (init_world (Some core_handle) unbounded) core_handle eq_refl) as H.
  cbv zeta in H. destruct H as (_ & Hret & _).
  exact (Hret good_transaction eq_refl).
Defined.

(** ** Refreshing the sync databases *)

Lemma refresh_db_counts options t dbs :
  length (List.filter is_open (flat_map (refresh_db_calls options t) dbs)) = length dbs /\
  length (List.filter is_any_release (flat_map (refresh_db_calls options t) dbs))
  = length dbs.
Proof.
  induction dbs as [|db dbs [IHo IHr]]; [done|].
  simpl. rewrite IHo, IHr. done.
Qed.

Lemma refresh_round options db w h t :
  handle (self w) = Some h ->
  h_init_transaction h (trans_flags options) = Some t ->
  (let* t := init_transaction options in
   engine_op (CDbUpdate (db_name db) true) (db_update db) >>>
   engine_op (CRelease (t_id t)) (t_release t)) w
  = let opened := (calls w ++ open_calls options ++ [CDbUpdate (db_name db) true])%list in
    match db_update db with
    | Fails => Raise AlpmError {| self := self w; calls := opened |}
    | Done =>
        let w' := {| self := self w; calls := calls w ++ refresh_db_calls options t db |} in
        match t_release t with
        | Done => Return tt w'
        | Fails => Raise AlpmError w'
        end
    end.
Proof.
  intros Hh Ht. unfold bind at 1. rewrite init_transaction_eq, Hh. cbv zeta.
  rewrite Ht. unfold engine_op, bind, call, ret, raise, refresh_db_calls.
  destruct (db_update db), (t_release t);
    cbn [self calls]; rewrite <- ?app_assoc; reflexivity.
Qed.


Lemma refresh_loop_fails options pre db post w h t :
  handle (self w) = Some h ->
  h_init_transaction h (trans_flags options) = Some t ->
  t_release t = Done ->
  Forall (fun db => db_update db = Done) pre ->
  db_update db = Fails ->
  for_each (pre ++ db :: post) (fun db =>
    let* t := init_transaction options in
    engine_op (CDbUpdate (db_name db) true) (db_update db) >>>
    engine_op (CRelease (t_id t)) (t_release t)) w
  = Raise AlpmError
      {| self := self w;
         calls := calls w ++ flat_map (refresh_db_calls options t) pre ++
                  open_calls options ++ [CDbUpdate (db_name db) true] |}.
Proof.
  intros Hh Ht Hrel Hall Hdb. revert w Hh.
  induction Hall as [|d pre Hd Hall IH]; intros w Hh.
  - cbn [app for_each flat_map]. unfold bind at 1.
    rewrite (refresh_round options db w h t Hh Ht). cbv zeta. by rewrite Hdb.
  - cbn [app for_each flat_map]. unfold bind at 1.
    rewrite (refresh_round options d w h t Hh Ht). cbv zeta. rewrite Hd, Hrel.
    rewrite IH by exact Hh. cbn [self calls].
    by rewrite <- !app_assoc.
Qed.



(** X5.  An update that raises the engine error is not caught: when the
    update of a database fails after the updates before it succeeded,
    [do_refresh] raises [pyalpm.error] right after that update, the
    databases after it are not visited, and the transaction opened for the
    failing round is never released: one more transaction has been opened
    than released. *)
Theorem do_refresh_update_fails options w h t pre db post :
  handle (self w) = Some h ->
  h_init_transaction h (trans_flags options) = Some t ->
  t_release t = Done ->
  get_syncdbs h = (pre ++ db :: post)%list ->
  Forall (fun db => db_update db = Done) pre ->
  db_update db = Fails ->
  let made := (flat_map (refresh_db_calls options t) pre ++
               open_calls options ++ [CDbUpdate (db_name db) true])%list in
  do_refresh options w
  = Raise AlpmError {| self := self w; calls := calls w ++ CGetSyncdbs :: made |}
  /\ length (List.filter is_open made) = S (length pre)
  /\ length (List.filter is_any_release made) = length pre.
Proof.
  intros Hh Ht Hrel Hdbs Hall Hdb. cbv zeta. split.
  - unfold do_refresh. cbv zeta.
    unfold bind at 1. unfold self_handle, bind at 1, get_self. rewrite Hh.
    unfold ret at 1. unfold bind at 1. unfold call at 1.
    unfold bind at 1. rewrite Hdbs.
    rewrite (refresh_loop_fails options pre db post _ h t);
      [|exact Hh|exact Ht|exact Hrel|exact Hall|exact Hdb].
    cbn [self calls]. by rewrite <- app_assoc.
  - destruct (refresh_db_counts options t pre) as [Ho Hr].
    rewrite !List.filter_app, !length_app, Ho, Hr. simpl. lia.
Qed.

Lemma do_refresh_update_fails_witness :
  let stale := {| db_name := "extra"; db_pkgs := []; db_grps := [];
                  db_update := Fails |} in
  let h := {| get_syncdbs := [core_db; stale];
              h_init_transaction := fun _ => Some good_transaction |} in
  exists w',
    do_refresh no_options (init_world (Some h) unbounded) = Raise AlpmError w' /\
    length (List.filter is_open (calls w')) = 2%nat /\
    length (List.filter is_any_release (calls w')) = 1%nat.
Proof.
  cbv zeta.
  pose proof (do_refresh_update_fails no_options
    (init_world
       (Some {| get_syncdbs :=
                  [core_db;
                   {| db_name := "extra"; db_pkgs := []; db_grps := [];
                      db_update := Fails |}];
                h_init_transaction := fun _ => Some good_transaction |})
       unbounded)
    _ good_transaction [core_db]
    {| db_name := "extra"; db_pkgs := []; db_grps := []; db_update := Fails |}
    [] eq_refl eq_refl eq_refl eq_refl) as H.
  cbv zeta in H. destruct H as (Hrun & _ & _); [repeat constructor|reflexivity|].
  eexists. split; [exact Hrun|]. split; reflexivity.
Defined.

(** ** Resolving packages and groups *)

Lemma lookups_after_refl w : lookups_after w w.
Proof. exists []. rewrite app_nil_r. by destruct w. Qed.

Lemma lookups_after_trans w1 w2 w3 :
  lookups_after w1 w2 -> lookups_after w2 w3 -> lookups_after w1 w3.
Proof.
  intros (l1 & -> & H1) (l2 & -> & H2). exists (l1 ++ l2)%list.
  cbn [self calls]. rewrite <- app_assoc. split; [reflexivity|].
  by rewrite forallb_app, H1, H2.
Qed.

Lemma lookups_after_call w c :
  is_lookup c = true ->
  lookups_after w {| self := self w; calls := calls w ++ [c] |}.
Proof. intros H. exists [c]. split; [reflexivity|]. simpl. by rewrite H. Qed.

Lemma lookups_after_self w w' : lookups_after w w' -> self w' = self w.
Proof. by intros (l & -> & _). Qed.

(** Look-ups open and release nothing. *)
Lemma lookups_after_filter w w' f :
  (forall c, is_lookup c = true -> f c = false) ->
  lookups_after w w' ->
  List.filter f (calls w') = List.filter f (calls w).
Proof.
  intros Hf (l & -> & Hl). cbn [calls]. rewrite List.filter_app.
  assert (List.filter f l = []) as ->; [|by rewrite app_nil_r].
  induction l as [|c l IH]; [done|].
  simpl in Hl. apply andb_true_iff in Hl as [Hc Hl].
  simpl. rewrite (Hf c Hc). by apply IH.
Qed.

Lemma find_in_dbs_spec pkgname dbs w :
  exists w', find_in_dbs pkgname dbs w = Return (lookup_pkg dbs pkgname) w' /\
             lookups_after w w'.
Proof.
  revert w. induction dbs as [|db dbs IH]; intros w.
  - exists w. split; [reflexivity|apply lookups_after_refl].
  - cbn [find_in_dbs lookup_pkg]. unfold bind, call.
    destruct (get_pkg db pkgname) as [pkg|].
    + eexists. split; [reflexivity|]. by apply lookups_after_call.
    + destruct (IH {| self := self w;
                      calls := calls w ++ [CGetPkg (db_name db) pkgname] |})
        as (w' & Hrun & Hw').
      exists w'. split; [exact Hrun|].
      eapply lookups_after_trans; [|exact Hw']. by apply lookups_after_call.
Qed.

Lemma format_not_found env pkgname :
  py_format env "package '%s' was not found" [PStr pkgname]
  = inr (not_found_text pkgname).
Proof. reflexivity. Qed.

Lemma format_added env template name :
  template = "Added package %s" \/ template = "Added group %s" ->
  exists msg, py_format env template [PStr name] = inr msg.
Proof. intros [-> | ->]; eexists; reflexivity. Qed.

Lemma find_sync_package_spec env pkgname syncdbs w :
  exists w',
    find_sync_package env pkgname syncdbs w
    = Return (match lookup_pkg (dict_values syncdbs) pkgname with
              | Some pkg => inl pkg
              | None => inr (not_found_text pkgname)
              end) w' /\
    lookups_after w w'.
Proof.
  destruct (find_in_dbs_spec pkgname (dict_values syncdbs) w) as (w' & Hrun & Hw').
  exists w'. split; [|exact Hw'].
  unfold find_sync_package. rewrite (bind_returns _ _ _ _ _ Hrun).
  destruct (lookup_pkg _ _); [reflexivity|].
  unfold format. rewrite format_not_found. reflexivity.
Qed.

Lemma first_group_spec group repos w :
  exists w', first_group group repos w = Return (lookup_grp repos group) w' /\
             lookups_after w w'.
Proof.
  revert w. induction repos as [|repo repos IH]; intros w.
  - exists w. split; [reflexivity|apply lookups_after_refl].
  - cbn [first_group lookup_grp]. unfold bind, call.
    destruct (read_grp repo group) as [[name pkgs]|].
    + eexists. split; [reflexivity|]. by apply lookups_after_call.
    + destruct (IH {| self := self w;
                      calls := calls w ++ [CReadGrp (db_name repo) group] |})
        as (w' & Hrun & Hw').
      exists w'. split; [exact Hrun|].
      eapply lookups_after_trans; [|exact Hw']. by apply lookups_after_call.
Qed.

Lemma load_global_bound globals name o w :
  globals !! name = Some o -> load_global globals name w = Return o w.
Proof. intros H. unfold load_global. by rewrite H. Qed.

Lemma get_group_pkgs_spec globals h group w :
  globals !! "handle" = Some (OHandle h) ->
  exists w', get_group_pkgs globals group w
             = Return (lookup_grp (get_syncdbs h) group) w' /\
             lookups_after w w'.
Proof.
  intros Hg.
  destruct (first_group_spec group (get_syncdbs h)
              {| self := self w; calls := calls w ++ [CGetSyncdbs] |})
    as (w' & Hrun & Hw').
  exists w'. split.
  - unfold get_group_pkgs. rewrite (bind_returns _ _ _ _ _ (load_global_bound _ _ _ w Hg)).
    unfold obj_get_syncdbs, bind, call, ret. exact Hrun.
  - eapply lookups_after_trans; [|exact Hw']. by apply lookups_after_call.
Qed.

Lemma resolve_targets_spec env globals h pkgs conflicts repos targets w :
  globals !! "handle" = Some (OHandle h) ->
  exists w',
    resolve_targets env globals pkgs conflicts repos targets w
    = Return (targets_of (dict_values repos) (get_syncdbs h) conflicts pkgs targets) w' /\
    lookups_after w w'.
Proof.
  intros Hg. revert targets w.
  induction pkgs as [|name pkgs IH]; intros targets w.
  - exists w. split; [reflexivity|apply lookups_after_refl].
  - cbn [resolve_targets targets_of].
    destruct (find_sync_package_spec env name repos w) as (w1 & Hrun1 & Hw1).
    rewrite (bind_returns _ _ _ _ _ Hrun1).
    destruct (lookup_pkg (dict_values repos) name) as [pkg|].
    + destruct (format_added env "Added package %s" (pkg_name pkg) (or_introl eq_refl))
        as [msg Hmsg].
      unfold format. rewrite Hmsg. unfold lift.
      rewrite (bind_returns _ _ w1 msg w1 eq_refl).
      unfold logging.
      rewrite (bind_returns _ _ w1 tt
                 {| self := self w1; calls := calls w1 ++ [CLogging "debug" msg] |} eq_refl).
      destruct (IH (targets ++ [pkg])%list
                  {| self := self w1; calls := calls w1 ++ [CLogging "debug" msg] |})
        as (w' & Hrun & Hw').
      exists w'. split; [exact Hrun|].
      eapply lookups_after_trans; [exact Hw1|].
      eapply lookups_after_trans; [|exact Hw']. by apply lookups_after_call.
    + destruct (get_group_pkgs_spec globals h name w1 Hg) as (w2 & Hrun2 & Hw2).
      rewrite (bind_returns _ _ _ _ _ Hrun2).
      destruct (lookup_grp (get_syncdbs h) name) as [members|].
      * destruct (format_added env "Added group %s" name (or_intror eq_refl))
          as [msg Hmsg].
        unfold format. rewrite Hmsg. unfold lift.
        rewrite (bind_returns _ _ w2 msg w2 eq_refl).
        unfold logging.
        rewrite (bind_returns _ _ w2 tt
                   {| self := self w2; calls := calls w2 ++ [CLogging "debug" msg] |} eq_refl).
        destruct (IH (targets ++ List.filter (not_in_conflicts conflicts) members)%list
                    {| self := self w2; calls := calls w2 ++ [CLogging "debug" msg] |})
          as (w' & Hrun & Hw').
        exists w'. split; [exact Hrun|].
        eapply lookups_after_trans; [exact Hw1|].
        eapply lookups_after_trans; [exact Hw2|].
        eapply lookups_after_trans; [|exact Hw']. by apply lookups_after_call.
      * unfold logging.
        rewrite (bind_returns _ _ w2 tt
                   {| self := self w2;
                      calls := calls w2 ++ [CLogging "error" (not_found_text name)] |}
                   eq_refl).
        destruct (IH targets
                    {| self := self w2;
                       calls := calls w2 ++ [CLogging "error" (not_found_text name)] |})
          as (w' & Hrun & Hw').
        exists w'. split; [exact Hrun|].
        eapply lookups_after_trans; [exact Hw1|].
        eapply lookups_after_trans; [exact Hw2|].
        eapply lookups_after_trans; [|exact Hw']. by apply lookups_after_call.
Qed.

Lemma find_in_dbs_hit pkgname pre db post pkg w :
  Forall (fun d => get_pkg d pkgname = None) pre ->
  get_pkg db pkgname = Some pkg ->
  find_in_dbs pkgname (pre ++ db :: post) w
  = Return (Some pkg)
      {| self := self w;
         calls := calls w ++ map (fun d => CGetPkg (db_name d) pkgname) (pre ++ [db]) |}.
Proof.
  intros Hpre Hdb. revert w. induction Hpre as [|d pre Hd Hpre IH]; intros w.
  - cbn [app find_in_dbs]. unfold bind, call. by rewrite Hdb.
  - cbn [app find_in_dbs]. unfold bind at 1, call. rewrite Hd, IH.
    cbn [self calls map]. by rewrite <- app_assoc.
Qed.

Lemma find_in_dbs_miss pkgname dbs w :
  Forall (fun d => get_pkg d pkgname = None) dbs ->
  find_in_dbs pkgname dbs w
  = Return None
      {| self := self w;
         calls := calls w ++ map (fun d => CGetPkg (db_name d) pkgname) dbs |}.
Proof.
  intros Hall. revert w. induction Hall as [|d dbs Hd Hall IH]; intros w.
  - simpl. rewrite app_nil_r. by destruct w.
  - cbn [find_in_dbs]. unfold bind at 1, call. rewrite Hd, IH.
    cbn [self calls map]. by rewrite <- app_assoc.
Qed.

Lemma dict_set_fresh {V} (d : list (string * V)) k v :
  k ∉ map fst d -> dict_set d k v = (d ++ [(k, v)])%list.
Proof.
  induction d as [|[k' v'] d IH]; intros Hk; [reflexivity|].
  cbn [dict_set]. cbn [map fst] in Hk. apply not_elem_of_cons in Hk as [Hne Hk].
  rewrite bool_decide_eq_false_2 by congruence. by rewrite IH.
Qed.

Lemma dict_fold_distinct {V} (pairs acc : list (string * V)) :
  NoDup (map fst (acc ++ pairs)) ->
  fold_left (fun d kv => dict_set d (fst kv) (snd kv)) pairs acc = (acc ++ pairs)%list.
Proof.
  revert acc. induction pairs as [|[k v] pairs IH]; intros acc Hnd.
  - by rewrite app_nil_r.
  - cbn [fold_left fst snd].
    assert (Hk : k ∉ map fst acc).
    { rewrite map_app in Hnd. apply NoDup_app in Hnd as (_ & Hdis & _).
      intros Hin. apply (Hdis k Hin). cbn [map fst]. by left. }
    rewrite (dict_set_fresh acc k v Hk), IH.
    + by rewrite <- app_assoc.
    + by rewrite <- app_assoc.
Qed.

(** With distinct names the mapping lists the databases as registered. *)
Lemma repos_of_distinct dbs :
  NoDup (map db_name dbs) -> dict_values (repos_of dbs) = dbs.
Proof.
  intros Hnd. unfold repos_of, dict_of, dict_values.
  rewrite dict_fold_distinct.
  - cbn [app]. rewrite map_map. cbn [snd]. apply map_id.
  - cbn [app]. rewrite map_map. exact Hnd.
Qed.

(** X6.  Packages are looked up in registration order and the first
    match wins: with distinct database names, when a database has the
    package and the ones registered before it do not, [find_sync_package]
    on the mapping of [do_install] returns [(True, pkg)] of that database,
    having asked exactly the databases up to it; when no database has the
    package it has asked every one and returns [False] with the message
    naming the package. *)
Theorem find_sync_package_first_match env pkgname dbs w :
  NoDup (map db_name dbs) ->
  (forall pre db post pkg,
     dbs = (pre ++ db :: post)%list ->
     Forall (fun d => get_pkg d pkgname = None) pre ->
     get_pkg db pkgname = Some pkg ->
     find_sync_package env pkgname (repos_of dbs) w
     = Return (inl pkg)
         {| self := self w;
            calls := calls w ++
                     map (fun d => CGetPkg (db_name d) pkgname) (pre ++ [db]) |})
  /\ (Forall (fun d => get_pkg d pkgname = None) dbs ->
      find_sync_package env pkgname (repos_of dbs) w
      = Return (inr ("package '" +:+ pkgname +:+ "' was not found"))
          {| self := self w;
             calls := calls w ++ map (fun d => CGetPkg (db_name d) pkgname) dbs |}).
Proof.
  intros Hnd. unfold find_sync_package. rewrite (repos_of_distinct dbs Hnd). split.
  - intros pre db post pkg -> Hpre Hdb.
    by rewrite (bind_returns _ _ _ _ _ (find_in_dbs_hit pkgname pre db post pkg w Hpre Hdb)).
  - intros Hall.
    rewrite (bind_returns _ _ _ _ _ (find_in_dbs_miss pkgname dbs w Hall)).
    unfold format. by rewrite format_not_found.
Qed.

Lemma three_sources_distinct :
  NoDup (map db_name [core_db; extra_db; community_db]).
Proof.
  cbn [map db_name core_db extra_db community_db].
  repeat (apply NoDup_cons; split; [rewrite ?elem_of_cons, elem_of_nil;
                                    intros H; repeat destruct H as [H|H];
                                    discriminate || done|]).
  apply NoDup_nil_2.
Qed.

Lemma find_sync_package_first_match_witness :
  find_sync_package plain_env "D" (repos_of [core_db; extra_db; community_db])
    (init_world None unbounded)
  = Return (inl pkg_D_extra)
      {| self := init None unbounded;
         calls := [CGetPkg "core" "D"; CGetPkg "extra" "D"] |}.
Proof.
  refine (proj1 (find_sync_package_first_match plain_env "D"
                   [core_db; extra_db; community_db]
                   (init_world None unbounded) three_sources_distinct)
            [core_db] extra_db [community_db] pkg_D_extra eq_refl _ eq_refl).
  repeat constructor.
Defined.

Lemma targets_of_app repos sources conflicts pkgs targets :
  targets_of repos sources conflicts pkgs targets
  = (targets ++ targets_of repos sources conflicts pkgs [])%list.
Proof.
  revert targets. induction pkgs as [|name pkgs IH]; intros targets.
  - cbn [targets_of]. by rewrite app_nil_r.
  - cbn [targets_of app].
    destruct (lookup_pkg repos name) as [pkg|].
    + rewrite (IH (targets ++ [pkg])%list), (IH [pkg]). by rewrite <- app_assoc.
    + destruct (lookup_grp sources name) as [members|]; [|apply IH].
      rewrite (IH (targets ++ _)%list), (IH (List.filter _ _)).
      by rewrite <- app_assoc.
Qed.

(** A target is a package found under a requested name, or a member, not
    in the conflicts, of the group found under a requested name that is
    no package. *)
Lemma targets_of_In repos sources conflicts pkgs t :
  In t (targets_of repos sources conflicts pkgs []) <->
  exists name, In name pkgs /\
    (lookup_pkg repos name = Some t \/
     (lookup_pkg repos name = None /\
      exists members, lookup_grp sources name = Some members /\
                      In t members /\ pkg_name t ∉ conflicts)).
Proof.
  induction pkgs as [|name pkgs IH].
  - simpl. split; [done|]. by intros (name & [] & _).
  - cbn [targets_of app]. split.
    + intros Hin. destruct (lookup_pkg repos name) as [pkg|] eqn:Hp.
      * rewrite targets_of_app in Hin. apply in_app_iff in Hin as [[<-|[]]|Hin].
        -- exists name. split; [by left|]. by left.
        -- apply IH in Hin as (n & Hn & Hcase). exists n. split; [by right|done].
      * destruct (lookup_grp sources name) as [members|] eqn:Hgr.
        -- rewrite targets_of_app in Hin. apply in_app_iff in Hin as [Hin|Hin].
           ++ apply kept_members in Hin as [Hm Hc].
              exists name. split; [by left|]. right. split; [done|].
              exists members. by repeat split.
           ++ apply IH in Hin as (n & Hn & Hcase). exists n. split; [by right|done].
        -- apply IH in Hin as (n & Hn & Hcase). exists n. split; [by right|done].
    + intros (n & [<-|Hn] & Hcase).
      * destruct Hcase as [Hp|(Hp & members & Hgr & Hm & Hc)].
        -- rewrite Hp, targets_of_app. apply in_app_iff. left. by left.
        -- rewrite Hp, Hgr, targets_of_app. apply in_app_iff. left.
           by apply kept_members.
      * assert (Hrest : In t (targets_of repos sources conflicts pkgs []))
          by (apply IH; eauto).
        destruct (lookup_pkg repos name) as [pkg|].
        -- rewrite targets_of_app. apply in_app_iff. by right.
        -- destruct (lookup_grp sources name) as [members|]; [|exact Hrest].
           rewrite targets_of_app. apply in_app_iff. by right.
Qed.

(** X7.  In a namespace that binds [handle] to an engine handle, the
    loop of [do_install] returns for every list of names, leaves the
    instance unchanged, and resolves exactly these targets: the package
    found under a requested name (whether or not the name is among the
    conflicts), and, for a requested name that is no package, the members
    of the first group of that name that are not among the conflicts. *)
Theorem resolve_targets_sound_complete env globals h pkgs conflicts repos w :
  globals !! "handle" = Some (OHandle h) ->
  exists targets w',
    resolve_targets env globals pkgs conflicts repos [] w = Return targets w' /\
    self w' = self w /\
    forall t,
      In t targets <->
      exists name, In name pkgs /\
        (lookup_pkg (dict_values repos) name = Some t \/
         (lookup_pkg (dict_values repos) name = None /\
          exists members, lookup_grp (get_syncdbs h) name = Some members /\
                          In t members /\ pkg_name t ∉ conflicts)).
Proof.
  intros Hg.
  destruct (resolve_targets_spec env globals h pkgs conflicts repos [] w Hg)
    as (w' & Hrun & Hw').
  eexists _, w'. split; [exact Hrun|]. split; [by apply lookups_after_self|].
  intros t. apply targets_of_In.
Qed.

Lemma handle_bound h :
  <["handle" := OHandle h]> pac_globals !! "handle" = Some (OHandle h).
Proof. apply lookup_insert_eq. Qed.

Lemma resolve_targets_sound_complete_witness :
  exists targets w',
    resolve_targets plain_env (<["handle" := OHandle core_handle]> pac_globals)
      ["B"; "basegroup"] ["B"] (repos_of [core_db]) []
      (init_world (Some core_handle) unbounded)
    = Return targets w' /\
    (In pkg_B targets <->
     exists name, In name ["B"; "basegroup"] /\
       (lookup_pkg (dict_values (repos_of [core_db])) name = Some pkg_B \/
        (lookup_pkg (dict_values (repos_of [core_db])) name = None /\
         exists members, lookup_grp (get_syncdbs core_handle) name = Some members /\
                         In pkg_B members /\ pkg_name pkg_B ∉ ["B"]))).
Proof.
  destruct (resolve_targets_sound_complete plain_env
              (<["handle" := OHandle core_handle]> pac_globals) core_handle
              ["B"; "basegroup"] ["B"] (repos_of [core_db])
              (init_world (Some core_handle) unbounded) (handle_bound core_handle))
    as (targets & w' & Hrun & _ & Hin).
  exists targets, w'. split; [exact Hrun|apply Hin].
Defined.

(** ** Installing, in a namespace that binds [handle] *)

Lemma do_install_resolved env globals h pkgs conflicts options w :
  pkgs ≠ [] ->
  globals !! "handle" = Some (OHandle h) ->
  exists w1,
    lookups_after w w1 /\
    do_install env globals pkgs conflicts options w
    = if bool_decide (length (install_targets h conflicts pkgs) = 0%nat) then
        Return 1 {| self := self w1;
                    calls := calls w1 ++ [CLogging "error" "No targets found"] |}
      else install_commit options (install_targets h conflicts pkgs) w1.
Proof.
  intros Hne Hg.
  set (w0 := {| self := self w;
                calls := calls w ++
                  [CLogging "debug" "Install a list of packages like pacman -S"] |}).
  set (w0' := {| self := self w0; calls := calls w0 ++ [CGetSyncdbs] |}).
  destruct (resolve_targets_spec env globals h pkgs conflicts
              (repos_of (get_syncdbs h)) [] w0' Hg) as (w1 & Hrun & Hw1).
  exists w1. split.
  { eapply lookups_after_trans; [|exact Hw1].
    eapply lookups_after_trans;
      [exact (lookups_after_call w
                (CLogging "debug" "Install a list of packages like pacman -S") eq_refl)|].
    exact (lookups_after_call w0 CGetSyncdbs eq_refl). }
  unfold do_install, logging.
  rewrite (bind_returns
             (call (CLogging "debug" "Install a list of packages like pacman -S"))
             _ w tt w0 eq_refl).
  rewrite bool_decide_eq_false_2 by (by destruct pkgs).
  rewrite (bind_returns _ _ _ _ _ (load_global_bound _ _ _ w0 Hg)).
  rewrite (bind_returns (obj_get_syncdbs (OHandle h)) _ w0 (get_syncdbs h) w0' eq_refl).
  cbv zeta. fold (repos_of (get_syncdbs h)).
  rewrite (bind_returns _ _ _ _ _ Hrun). fold (install_targets h conflicts pkgs).
  destruct (bool_decide _); reflexivity.
Qed.

Lemma dict_set_values_Forall {V} (P : V -> Prop) (d : list (string * V)) k v :
  Forall P (map snd d) -> P v -> Forall P (map snd (dict_set d k v)).
Proof.
  intros Hd Hv. induction d as [|[k' v'] d IH]; cbn [dict_set map snd].
  - by constructor.
  - cbn [map snd] in Hd. apply Forall_cons in Hd as [Hv' Hd].
    case_bool_decide; cbn [map snd]; constructor; auto.
Qed.

Lemma repos_of_Forall (P : Db -> Prop) dbs :
  Forall P dbs -> Forall P (dict_values (repos_of dbs)).
Proof.
  intros Hall. unfold repos_of, dict_of, dict_values.
  assert (Hgen : forall pairs acc,
    Forall P (map snd acc) -> Forall P (map snd pairs) ->
    Forall P (map snd (fold_left
      (fun d (kv : string * Db) => dict_set d (fst kv) (snd kv)) pairs acc))).
  { induction pairs as [|[k v] pairs IH]; intros acc Hacc Hp; [exact Hacc|].
    cbn [fold_left fst snd]. cbn [map snd] in Hp. apply Forall_cons in Hp as [Hv Hp].
    apply IH; [|exact Hp]. by apply dict_set_values_Forall. }
  apply Hgen; [constructor|]. rewrite map_map. cbn [snd]. by rewrite map_id.
Qed.

Lemma lookup_pkg_none dbs name :
  Forall (fun d => get_pkg d name = None) dbs -> lookup_pkg dbs name = None.
Proof. induction 1 as [|d dbs Hd _ IH]; [done|]. cbn [lookup_pkg]. by rewrite Hd. Qed.

Lemma lookup_grp_none dbs name :
  Forall (fun d => read_grp d name = None) dbs -> lookup_grp dbs name = None.
Proof. induction 1 as [|d dbs Hd _ IH]; [done|]. cbn [lookup_grp]. by rewrite Hd. Qed.

Lemma targets_of_none repos sources conflicts pkgs targets :
  Forall (fun name => lookup_pkg repos name = None /\ lookup_grp sources name = None)
         pkgs ->
  targets_of repos sources conflicts pkgs targets = targets.
Proof.
  induction 1 as [|name pkgs [Hp Hg] _ IH]; [done|].
  cbn [targets_of]. by rewrite Hp, Hg.
Qed.

(** X8.  In a namespace that binds [handle]: when no database has a
    package or a group under any of the requested names, [do_install]
    logs "No targets found" and returns 1; the instance is unchanged and
    no transaction has been opened. *)
Theorem do_install_nothing_resolved env globals h pkgs conflicts options w :
  pkgs ≠ [] ->
  globals !! "handle" = Some (OHandle h) ->
  Forall (fun name =>
            Forall (fun db => get_pkg db name = None /\ read_grp db name = None)
                   (get_syncdbs h)) pkgs ->
  exists w',
    do_install env globals pkgs conflicts options w = Return 1 w' /\
    self w' = self w /\
    last (calls w') = Some (CLogging "error" "No targets found") /\
    List.filter is_open (calls w') = List.filter is_open (calls w).
Proof.
  intros Hne Hg Hnone.
  destruct (do_install_resolved env globals h pkgs conflicts options w Hne Hg)
    as (w1 & Hw1 & Hrun).
  assert (Hts : install_targets h conflicts pkgs = []).
  { unfold install_targets. apply targets_of_none.
    eapply Forall_impl; [exact Hnone|]. intros name Hname. split.
    - apply lookup_pkg_none, repos_of_Forall.
      eapply Forall_impl; [exact Hname|]. by intros d [? _].
    - apply lookup_grp_none. eapply Forall_impl; [exact Hname|]. by intros d [_ ?]. }
  rewrite Hts in Hrun. cbn [length] in Hrun.
  rewrite bool_decide_eq_true_2 in Hrun by done.
  eexists. split; [exact Hrun|]. cbn [self calls].
  split; [by apply lookups_after_self|]. split; [apply last_snoc|].
  rewrite List.filter_app. cbn [List.filter is_open]. rewrite app_nil_r.
  apply (lookups_after_filter w w1); [|exact Hw1]. by intros [].
Qed.

Lemma do_install_nothing_resolved_witness :
  exists w',
    do_install plain_env (<["handle" := OHandle core_handle]> pac_globals)
      ["nonexistent"] [] no_options (init_world (Some core_handle) unbounded)
    = Return 1 w' /\
    last (calls w') = Some (CLogging "error" "No targets found").
Proof.
  destruct (do_install_nothing_resolved plain_env
              (<["handle" := OHandle core_handle]> pac_globals) core_handle
              ["nonexistent"] [] no_options
              (init_world (Some core_handle) unbounded))
    as (w' & Hrun & _ & Hlast & _).
  - discriminate.
  - apply handle_bound.
  - repeat constructor.
  - exists w'. split; [exact Hrun|exact Hlast].
Defined.


Lemma add_all_fails t pre pkg post w :
  Forall (fun p => t_add_pkg t p = Done) pre ->
  t_add_pkg t pkg = Fails ->
  for_each (pre ++ pkg :: post)
    (fun p => engine_op (CAddPkg (t_id t) p) (t_add_pkg t p)) w
  = Raise AlpmError {| self := self w;
                       calls := calls w ++ map (CAddPkg (t_id t)) (pre ++ [pkg]) |}.
Proof.
  intros Hall Hpkg. revert w. induction Hall as [|p pre Hp Hall IH]; intros w.
  - cbn [app for_each]. unfold bind at 1, engine_op, bind, call, raise.
    by rewrite Hpkg.
  - cbn [app for_each]. unfold bind at 1, engine_op, bind, call, ret. rewrite Hp, IH.
    cbn [self calls map]. by rewrite <- app_assoc.
Qed.


Lemma install_commit_add_fails options pre pkg post w h t :
  handle (self w) = Some h ->
  h_init_transaction h (trans_flags options) = Some t ->
  Forall (fun p => t_add_pkg t p = Done) pre ->
  t_add_pkg t pkg = Fails ->
  install_commit options (pre ++ pkg :: post) w
  = Raise AlpmError
      {| self := self w;
         calls := calls w ++ open_calls options ++
                  map (CAddPkg (t_id t)) (pre ++ [pkg]) |}.
Proof.
  intros Hh Ht Hadd Hpkg. unfold install_commit.
  unfold bind at 1. rewrite init_transaction_eq, Hh. cbv zeta. rewrite Ht.
  unfold bind at 1. rewrite (add_all_fails t pre pkg post _ Hadd Hpkg).
  cbn [self calls]. by rewrite <- !app_assoc.
Qed.



Lemma filter_add_pkgs (f : Call -> bool) id targets :
  (forall i p, f (CAddPkg i p) = false) ->
  List.filter f (map (CAddPkg id) targets) = [].
Proof.
  intros Hf. induction targets as [|p l IH]; [done|].
  simpl. rewrite Hf. exact IH.
Qed.

(** X10.  In a namespace that binds [handle]: when the engine refuses a
    target, [add_pkg] raising the engine error after the targets before it
    were accepted, [do_install] passes the error on.  Nothing catches it:
    the targets after it are not added, [prepare] and [commit] are not
    tried, and the transaction that was opened is never released. *)
Theorem do_install_add_pkg_fails env globals h hs t pkgs conflicts options w
    pre pkg post :
  pkgs ≠ [] ->
  globals !! "handle" = Some (OHandle h) ->
  handle (self w) = Some hs ->
  h_init_transaction hs (trans_flags options) = Some t ->
  install_targets h conflicts pkgs = (pre ++ pkg :: post)%list ->
  Forall (fun p => t_add_pkg t p = Done) pre ->
  t_add_pkg t pkg = Fails ->
  exists w1 w',
    lookups_after w w1 /\
    do_install env globals pkgs conflicts options w = Raise AlpmError w' /\
    calls w' = (calls w1 ++ open_calls options ++
                map (CAddPkg (t_id t)) (pre ++ [pkg]))%list /\
    List.filter is_any_release (calls w') = List.filter is_any_release (calls w) /\
    length (List.filter is_open (calls w'))
    = S (length (List.filter is_open (calls w))).
Proof.
  intros Hne Hg Hh Ht Hts Hadd Hpkg.
  destruct (do_install_resolved env globals h pkgs conflicts options w Hne Hg)
    as (w1 & Hw1 & Hrun).
  rewrite Hts in Hrun.
  rewrite bool_decide_eq_false_2 in Hrun by (by destruct pre).
  assert (Hh1 : handle (self w1) = Some hs)
    by (by rewrite (lookups_after_self _ _ Hw1)).
  rewrite (install_commit_add_fails options pre pkg post w1 hs t Hh1 Ht Hadd Hpkg)
    in Hrun.
  eexists w1, _. split; [exact Hw1|]. split; [exact Hrun|]. cbn [self calls].
  split; [reflexivity|].
  split.
  - rewrite !List.filter_app, (filter_add_pkgs is_any_release) by done.
    cbn [open_calls List.filter is_any_release]. rewrite !app_nil_r.
    apply (lookups_after_filter w w1); [|exact Hw1]. by intros [].
  - rewrite !List.filter_app, (filter_add_pkgs is_open) by done.
    cbn [open_calls List.filter is_open]. rewrite app_nil_r, length_app.
    rewrite (lookups_after_filter w w1 is_open); [|by intros []|exact Hw1].
    simpl. lia.
Qed.

Lemma do_install_add_pkg_fails_witness :
  exists w',
    do_install plain_env (<["handle" := OHandle core_handle]> pac_globals)
      ["basegroup"] ["B"] no_options (init_world (Some picky_handle) unbounded)
    = Raise AlpmError w' /\
    List.filter is_any_release (calls w') = [].
Proof.
  destruct (do_install_add_pkg_fails plain_env
              (<["handle" := OHandle core_handle]> pac_globals) core_handle
              picky_handle picky_transaction ["basegroup"] ["B"] no_options
              (init_world (Some picky_handle) unbounded) [pkg_A] pkg_C [])
    as (w1 & w' & _ & Hrun & _ & Hrel & _).
  - discriminate.
  - apply handle_bound.
  - reflexivity.
  - reflexivity.
  - vm_compute. reflexivity.
  - repeat constructor.
  - reflexivity.
  - exists w'. split; [exact Hrun|exact Hrel].
Defined.

(** ** The callbacks and the fatal exit *)

Lemma no_exit_ret {A} (a : A) : no_exit (ret a).
Proof. by intros w c w'. Qed.

Lemma no_exit_raise {A} e : no_exit (@raise A e).
Proof. by intros w c w'. Qed.

Lemma no_exit_lift {A} (r : Exn + A) : no_exit (lift r).
Proof. destruct r; [apply no_exit_raise|apply no_exit_ret]. Qed.

Lemma no_exit_modify f : no_exit (modify f).
Proof. by intros w c w'. Qed.

Lemma no_exit_call c : no_exit (call c).
Proof. by intros w c' w'. Qed.

Lemma no_exit_get_self : no_exit get_self.
Proof. by intros w c w'. Qed.

Lemma no_exit_bind {A B} (m : M A) (k : A -> M B) :
  no_exit m -> (forall a, no_exit (k a)) -> no_exit (bind m k).
Proof.
  intros Hm Hk w c w'. unfold bind.
  destruct (m w) as [a w1|e w1|c1 w1] eqn:Hmw; [apply Hk|done|].
  by destruct (Hm w c1 w1).
Qed.

Lemma no_exit_queue_event env caller ty text :
  ty ≠ "error" -> no_exit (queue_event env caller ty text).
Proof. intros Hne w c w'. by rewrite queue_event_returns. Qed.

(** The proof of [no_exit] along the structure of a method. *)
Ltac no_exit_steps :=
  repeat first
    [ apply no_exit_ret | apply no_exit_raise | apply no_exit_lift
    | apply no_exit_modify | apply no_exit_call | apply no_exit_get_self
    | apply no_exit_queue_event; discriminate
    | apply no_exit_bind; [|intros ?]
    | match goal with
      | |- no_exit (if ?b then _ else _) => destruct b
      | |- no_exit (match ?x with _ => _ end) => destruct x
      end ].

(** X11.  No callback ends the process: [cb_event], [cb_log],
    [cb_progress] and [cb_dl] emit events of the types [action], [info],
    [target], [percent] and [global_percent] only, never [error], so none
    of them reaches [join(); sys.exit(1)], whatever the sample and the
    state. *)
Theorem callbacks_never_exit env :
  (forall ID, no_exit (cb_event env ID)) /\
  (forall level line, no_exit (cb_log level line)) /\
  (forall target percent n i, no_exit (cb_progress env target percent n i)) /\
  (forall filename tx total, no_exit (cb_dl env filename tx total)).
Proof.
  split; [|split; [|split]].
  - intros ID. unfold cb_event. cbv zeta. no_exit_steps.
  - intros level line. unfold cb_log, logging. cbv zeta. no_exit_steps.
  - intros target percent n i. unfold cb_progress, format. cbv zeta. no_exit_steps.
  - intros filename tx total.
    unfold cb_dl, dl_new_file, dl_progress, dl_gate, format. cbv zeta. no_exit_steps.
Qed.

(** ** Engine events *)

(** X12.  [cb_event] always returns.  For the identifier 9 and for every
    identifier outside 1, 3, 5, 7, 11, 13, 15, 17, 26, 27 it does nothing
    at all; for every identifier it calls the emitter at most once, with
    an [action] event whose text is not empty. *)
Theorem cb_event_actions env ID w :
  (~ In ID named_events -> cb_event env ID w = Return tt w) /\
  exists w',
    cb_event env ID w = Return tt w' /\
    (w' = w \/
     exists text, text ≠ "" /\
       w' = after_emit env (code env "cb_event" 225) "action" (PStr text) w).
Proof.
  split.
  - intros Hnot. unfold cb_event. cbv zeta.
    assert (Hact : event_action env ID = "").
    { unfold event_action, named_events in *.
      repeat (case_bool_decide as H; [subst ID; try reflexivity;
                exfalso; apply Hnot; simpl; tauto|clear H]).
      reflexivity. }
    rewrite Hact. reflexivity.
  - unfold cb_event. cbv zeta.
    destruct (event_action env ID) as [|c text] eqn:Hact.
    + exists w. split; [reflexivity|by left].
    + rewrite bool_decide_eq_true_2 by (simpl; lia).
      rewrite queue_event_returns by discriminate.
      eexists. split; [reflexivity|]. right. by exists (String c text).
Qed.

Lemma cb_event_actions_witness :
  cb_event plain_env 9 (init_world None unbounded)
  = Return tt (init_world None unbounded).
Proof.
  refine (proj1 (cb_event_actions plain_env 9 (init_world None unbounded)) _).
  unfold named_events. simpl. intros H.
  repeat (destruct H as [H|H]; [discriminate H|]). exact H.
Defined.

(** ** Engine log lines *)

Lemma land_mask_zero level :
  Z.land level (Z.lor LOG_ERROR LOG_WARNING) = 0 <->
  Z.land level LOG_ERROR = 0 /\ Z.land level LOG_WARNING = 0.
Proof. rewrite Z.land_lor_distr_r. apply Z.lor_eq_0_iff. Qed.

Lemma land_pow2 a k :
  0 <= k -> Z.land a (2 ^ k) = if Z.testbit a k then 2 ^ k else 0.
Proof.
  intros Hk. apply Z.bits_inj'. intros m Hm.
  rewrite Z.land_spec, Z.pow2_bits_eqb by lia.
  destruct (Z.eqb_spec k m) as [->|Hne].
  - rewrite andb_true_r. destruct (Z.testbit a m) eqn:Hb.
    + by rewrite Z.pow2_bits_true.
    + by rewrite Z.bits_0.
  - rewrite andb_false_r. destruct (Z.testbit a k).
    + by rewrite Z.pow2_bits_false.
    + by rewrite Z.bits_0.
Qed.

Lemma land_error_bit level :
  Z.land level LOG_ERROR ≠ 0 <-> Z.testbit level 0 = true.
Proof.
  change LOG_ERROR with (2 ^ 0). rewrite land_pow2 by lia.
  destruct (Z.testbit level 0); split; intros H; (done || lia).
Qed.

Lemma land_warning_bit level :
  Z.land level LOG_WARNING ≠ 0 <-> Z.testbit level 1 = true.
Proof.
  change LOG_WARNING with (2 ^ 1). rewrite land_pow2 by lia.
  destruct (Z.testbit level 1); split; intros H; (done || lia).
Qed.

(** X13.  [cb_log] always returns and touches neither the instance nor
    the queue.  It writes at most one log line: an error when the level
    has the error bit (bit 0), else a warning when it has the warning bit
    (bit 1); a level with neither bit, such as debug (4) or function (8),
    is ignored. *)
Theorem cb_log_levels level line w :
  cb_log level line w
  = Return tt {| self := self w; calls := calls w ++ log_calls level line |}.
Proof.
  unfold cb_log, log_calls, logging, call, ret. cbv zeta.
  case_bool_decide as Hmask.
  - apply land_mask_zero in Hmask as [He Hw].
    destruct (Z.testbit level 0) eqn:H0;
      [by apply land_error_bit in H0|].
    destruct (Z.testbit level 1) eqn:H1;
      [by apply land_warning_bit in H1|].
    rewrite app_nil_r. by destruct w.
  - case_bool_decide as He.
    + apply land_error_bit in He. by rewrite He.
    + assert (H0 : Z.testbit level 0 = false).
      { destruct (Z.testbit level 0) eqn:H0; [|done]. by apply land_error_bit in H0. }
      rewrite H0. case_bool_decide as Hw.
      * apply land_warning_bit in Hw. by rewrite Hw.
      * exfalso. apply Hmask, land_mask_zero. split.
        -- destruct (decide (Z.land level LOG_ERROR = 0)); [done|by destruct He].
        -- destruct (decide (Z.land level LOG_WARNING = 0)); [done|by destruct Hw].
Qed.

(** ** Abstract progress *)

(** X14.  A progress sample without a target name returns when the
    translated template of the info line still takes its argument.  It
    calls the emitter with the [target] label of the checking phase and
    with [percent = percent / 100], preceded by the [info] line with the
    number of targets when the percent or the index fell below the
    recorded ones; it records the index and the percent of the sample and
    leaves the tracked target as it was. *)
Theorem cb_progress_abstract env percent n i w text :
  py_format env (gettext env "Progress (%d targets)") [PInt n] = inr text ->
  exists w',
    cb_progress env "" percent n i w = Return tt w' /\
    calls w'
    = (calls w ++
       (if is_new_phase (self w) percent i then [CQueueEvent "info" (PStr text)] else []) ++
       [CQueueEvent "target" (PStr (gettext env "Checking and loading packages..."));
        CQueueEvent "percent" (py_quot percent 100)])%list /\
    last_i (self w') = i /\
    last_percent (self w') = percent /\
    last_target (self w') = last_target (self w).
Proof.
  intros Hfmt. unfold cb_progress. cbv zeta.
  rewrite bool_decide_eq_true_2 by done.
  unfold bind at 1. unfold bind at 1. unfold get_self at 1. cbv beta iota.
  unfold format. rewrite Hfmt, py_truediv_100.
  fold (is_new_phase (self w) percent i).
  destruct (is_new_phase (self w) percent i); run_emits;
    (eexists; split; [reflexivity|]);
    rewrite ?after_emit_calls;
    repeat (progress (through_emits after_emit_progress;
                      cbn [self calls last_i last_percent last_target
                           set_last_i set_last_percent]));
    rewrite ?after_emit_calls; cbn [self calls];
    rewrite <- ?app_assoc; repeat split; reflexivity.
Qed.

Lemma cb_progress_abstract_witness :
  exists w',
    cb_progress plain_env "" 40 7 2 (init_world None unbounded) = Return tt w' /\
    last_i (self w') = 2 /\ last_percent (self w') = 40.
Proof.
  destruct (cb_progress_abstract plain_env 40 7 2 (init_world None unbounded)
              "Progress (7 targets)" eq_refl)
    as (w' & Hrun & _ & Hi & Hp & _).
  exists w'. split; [exact Hrun|]. split; [exact Hi|exact Hp].
Defined.

(** ** A progress sample with the total 0 *)

(** X18.  Nothing in [cb_progress] guards the division by the total: a
    sample that starts a target with the total 0 raises
    [ZeroDivisionError] after the [target] and [percent] events have been
    emitted; the final assignment is not reached, so the recorded percent
    is left at the baseline 0 and not at the percent of the sample. *)
Theorem cb_progress_total_zero env target percent i w text :
  target ≠ "" ->
  is_new_target (self w) target percent = true ->
  py_format env (gettext env "Installing %s (%d/%d)") [PStr target; PInt i; PInt 0]
  = inr text ->
  exists w',
    cb_progress env target percent 0 i w = Raise ZeroDivisionError w' /\
    calls w' = (calls w ++ [CQueueEvent "target" (PStr text);
                            CQueueEvent "percent" (py_quot percent 100)])%list /\
    last_target (self w') = Some target /\
    last_percent (self w') = 0.
Proof.
  intros Ht Hnew Hfmt. unfold cb_progress. cbv zeta.
  rewrite (target_not_empty _ Ht).
  unfold bind at 1. unfold bind at 1. unfold get_self at 1. cbv beta iota.
  rewrite Hnew. unfold format. rewrite Hfmt, py_truediv_100.
  run_emits. eexists. split; [reflexivity|].
  rewrite !after_emit_calls. through_emits after_emit_progress.
  cbn [self calls]. rewrite <- app_assoc. by repeat split.
Qed.

Lemma cb_progress_total_zero_witness :
  exists w',
    cb_progress plain_env "pkgA" 50 0 1 (init_world None unbounded)
    = Raise ZeroDivisionError w' /\
    last_percent (self w') = 0.
Proof.
  destruct (cb_progress_total_zero plain_env "pkgA" 50 1 (init_world None unbounded)
              "Installing pkgA (1/0)") as (w' & Hrun & _ & _ & Hp).
  - discriminate.
  - reflexivity.
  - reflexivity.
  - exists w'. split; [exact Hrun|exact Hp].
Defined.

(** ** What an emit leaves alone *)

(** X15.  [queue_event] changes nothing of the instance but the record
    of the event type and the queue: the progress and download
    indicators and the handle stay, the record of every other type stays,
    the queue keeps its capacity and its items and gains at most one item
    at the back, and a bounded queue that was within its capacity stays
    within it. *)
Theorem queue_event_frame env caller ty text w :
  let s := self w in
  let s' := self (final (queue_event env caller ty text w)) in
  (last_target s' = last_target s /\ last_percent s' = last_percent s /\
   last_i s' = last_i s /\ last_dl_filename s' = last_dl_filename s /\
   last_dl_progress s' = last_dl_progress s /\ last_dl_total s' = last_dl_total s /\
   handle s' = handle s /\ conflict_to_remove s' = conflict_to_remove s) /\
  (forall ty', ty' ≠ ty -> last_event s' !! ty' = last_event s !! ty') /\
  q_maxsize (callback_queue s') = q_maxsize (callback_queue s) /\
  (exists pushed,
     q_items (callback_queue s') = (q_items (callback_queue s) ++ pushed)%list /\
     (length pushed <= 1)%nat) /\
  ((0 < q_maxsize (callback_queue s))%nat ->
   (length (q_items (callback_queue s)) <= q_maxsize (callback_queue s))%nat ->
   (length (q_items (callback_queue s')) <= q_maxsize (callback_queue s))%nat).
Proof.
  cbv zeta. rewrite final_queue_event. unfold after_emit. cbn [self].
  destruct (same_as_last (self w) ty text).
  { split; [by repeat split|]. split; [done|]. split; [done|]. split.
    - exists []. split; [by rewrite app_nil_r|simpl; lia].
    - done. }
  unfold enqueue, put_nowait.
  destruct (q_full (callback_queue _)) eqn:Hfull;
    cbn [callback_queue set_last_event set_callback_queue last_target last_percent
         last_i last_dl_filename last_dl_progress last_dl_total handle
         conflict_to_remove last_event q_items q_maxsize] in *.
  - split; [by repeat split|]. split; [by intros ty' Hne; rewrite lookup_insert_ne|].
    split; [done|]. split; [|done].
    exists []. split; [by rewrite app_nil_r|simpl; lia].
  - split; [by repeat split|]. split; [by intros ty' Hne; rewrite lookup_insert_ne|].
    split; [done|]. split; [eexists; split; [reflexivity|simpl; lia]|].
    intros Hpos Hlen. rewrite length_app. simpl.
    unfold q_full in Hfull. apply andb_false_iff in Hfull as [Hf|Hf].
    + apply Nat.ltb_ge in Hf. lia.
    + apply Nat.leb_gt in Hf. lia.
Qed.

Lemma queue_event_frame_witness :
  let w := init_world None {| q_items := [("info", PStr "x")]; q_maxsize := 1 |} in
  (length (q_items (callback_queue (self (final
     (queue_event plain_env (code plain_env "cb_event" 225) "action" (PStr "a") w)))))
   <= 1)%nat.
Proof.
  cbv zeta.
  pose proof (queue_event_frame plain_env (code plain_env "cb_event" 225)
                "action" (PStr "a")
                (init_world None {| q_items := [("info", PStr "x")]; q_maxsize := 1 |}))
    as H.
  cbv zeta in H. destruct H as (_ & _ & _ & _ & Hcap).
  apply Hcap; simpl; lia.
Defined.

(** ** Downloads *)





(** X17.  Samples of a file of known size keep the download indicator
    on its scale: from a state whose recorded progress, if any, lies in
    0..25, a sample with [total > 0] and [0 <= transferred <= total]
    returns in such a state; every [percent] event it emits carries a
    value in 1..25; and for a further sample of the same file the recorded
    progress does not go down. *)
Theorem cb_dl_keeps_scale env filename tx total w :
  total > 0 -> 0 <= tx <= total ->
  dl_inv (self w) -> dl_range (self w) ->
  exists w' evs,
    cb_dl env filename tx total w = Return tt w' /\
    calls w' = (calls w ++ evs)%list /\
    dl_inv (self w') /\ dl_range (self w') /\
    (forall p, In (CQueueEvent "percent" (PInt p)) evs -> 1 <= p <= 25) /\
    (is_new_file (self w) filename total = false ->
     forall p0 p1,
       last_dl_progress (self w) = Some p0 ->
       last_dl_progress (self w') = Some p1 -> p0 <= p1).
Proof.
  intros Hpos Htx Hinv Hrange.
  destruct (dl_new_file_returns env filename tx total w)
    as (w1 & Hnew & Hfile & Htot & Hprog1 & Hcalls1).
  pose proof (dl_progress_known env tx total w1 Htot Hpos) as Hprog.
  assert (Hbound : 0 <= (tx * 25) `div` total <= 25).
  { split; [apply Z.div_pos; lia|apply Z.div_le_upper_bound; lia]. }
  assert (Hlast : exists last, last_dl_progress (self w1) = Some last /\ 0 <= last <= 25).
  { rewrite Hprog1. destruct (is_new_file (self w) filename total) eqn:Hn.
    - exists 0. split; [reflexivity|lia].
    - apply is_new_file_false in Hn as [Hf _].
      destruct (Hinv (ex_intro _ filename Hf)) as [last Hl].
      exists last. split; [exact Hl|]. by apply Hrange. }
  destruct Hlast as (last & Hlast & Hlr).
  destruct (dl_gate_returns env filename tx total ((tx * 25) `div` total) w1 last Hlast)
    as (w' & Hgate & Hgt & Hle).
  rewrite (cb_dl_after_new_file env filename tx total w w1 _ Hnew Hprog).
  destruct (decide ((tx * 25) `div` total > last)) as [Hup|Hdown].
  - destruct (Hgt Hup) as (Hc & Hp & _ & _).
    eexists w', _. split; [exact Hgate|].
    split; [rewrite Hc, Hcalls1, <- app_assoc; reflexivity|].
    split; [intros _; rewrite Hp; eauto|].
    split; [intros p; rewrite Hp; intros [= <-]; exact Hbound|].
    split.
    + intros p Hin. apply in_app_iff in Hin as [Hin|Hin].
      * destruct (is_new_file _ _ _); simpl in Hin; [|done].
        destruct Hin as [Hin|[]]. discriminate Hin.
      * unfold gate_calls in Hin. simpl in Hin.
        destruct Hin as [Hin|[Hin|[]]]; [discriminate Hin|].
        injection Hin as <-. lia.
    + intros Hn p0 p1 H0 H1. rewrite Hn in Hprog1. rewrite Hp in H1.
      injection H1 as <-. rewrite Hprog1, H0 in Hlast. injection Hlast as ->. lia.
  - assert (Hsame : w' = w1) by (apply Hle; lia). clear Hgt Hle. subst w'.
    eexists w1, _. split; [exact Hgate|]. split; [exact Hcalls1|].
    split; [intros _; rewrite Hlast; eauto|].
    split; [intros p; rewrite Hlast; intros [= <-]; exact Hlr|].
    split.
    + intros p Hin. destruct (is_new_file _ _ _); simpl in Hin; [|done].
      destruct Hin as [Hin|[]]. discriminate Hin.
    + intros Hn p0 p1 H0 H1. rewrite Hn in Hprog1. rewrite Hprog1, H0 in Hlast.
      rewrite Hprog1, H0 in H1. injection H1 as <-. lia.
Qed.

Lemma dl_range_init h q : dl_range (init h q).
Proof. intros p Hp. discriminate Hp. Qed.

Lemma cb_dl_keeps_scale_witness :
  exists w',
    cb_dl plain_env "core.db" 40 100 (init_world None unbounded) = Return tt w' /\
    dl_range (self w').
Proof.
  destruct (cb_dl_keeps_scale plain_env "core.db" 40 100 (init_world None unbounded)
              eq_refl ltac:(lia) (dl_inv_init None unbounded)
              (dl_range_init None unbounded))
    as (w' & evs & Hrun & _ & _ & Hrange & _).
  exists w'. split; [exact Hrun|exact Hrange].
Defined.

Lemma trans_flags_consistent_witness :
  let options :=
    {| o_cascade := None; o_nodeps := None; o_force := None; o_dbonly := None;
       o_downloadonly := None; o_nosave := None; o_recursive := Some 2;
       o_unneeded := None; o_mode := Some PKG_REASON_DEPEND |} in
  recurse (trans_flags options) = true.
Proof.
  cbv zeta.
  exact (proj1 (proj2 (trans_flags_consistent
    {| o_cascade := None; o_nodeps := None; o_force := None; o_dbonly := None;
       o_downloadonly := None; o_nosave := None; o_recursive := Some 2;
       o_unneeded := None; o_mode := Some PKG_REASON_DEPEND |})) eq_refl).
Defined.

(** * Samples and the events they deliver *)

(** ** Best-effort pushes *)

Lemma same_as_last_is_repeat s ty text :
  same_as_last s ty text = is_repeat (last_event s) ty text.
Proof. reflexivity. Qed.

Lemma pushed_items_nil q : pushed_items q [] = q_items q.
Proof.
  unfold pushed_items. destruct (q_maxsize q =? 0)%nat; rewrite ?take_nil;
    apply app_nil_r.
Qed.

Lemma enqueue_items ev p :
  q_items (callback_queue (enqueue ev p)) = pushed_items (callback_queue p) [ev] /\
  q_maxsize (callback_queue (enqueue ev p)) = q_maxsize (callback_queue p).
Proof.
  rewrite queue_enqueue. unfold q_full, pushed_items.
  destruct (q_maxsize (callback_queue p)) as [|m] eqn:Hm.
  - simpl. by split.
  - change (0 <? S m)%nat with true. change (S m =? 0)%nat with false.
    cbn [andb].
    destruct (S m <=? length (q_items (callback_queue p)))%nat eqn:Hle.
    + apply Nat.leb_le in Hle.
      replace (S m - length (q_items (callback_queue p)))%nat with 0%nat by lia.
      rewrite take_0, app_nil_r. by split.
    + apply Nat.leb_gt in Hle. cbn [q_items q_maxsize]. split; [|reflexivity].
      destruct (S m - length (q_items (callback_queue p)))%nat as [|k] eqn:Hk; [lia|].
      simpl. by rewrite take_nil.
Qed.

Lemma pushed_items_app q q' evs1 evs2 :
  q_items q' = pushed_items q evs1 ->
  q_maxsize q' = q_maxsize q ->
  pushed_items q' evs2 = pushed_items q (evs1 ++ evs2).
Proof.
  intros Hi Hm. unfold pushed_items at 1. rewrite Hi, Hm. unfold pushed_items.
  destruct (q_maxsize q =? 0)%nat; [by rewrite <- app_assoc|].
  rewrite <- app_assoc. f_equal. rewrite take_app. f_equal.
  rewrite length_app, length_take. f_equal. lia.
Qed.

(** The queue and the record after an emit of a type other than [error]. *)
Lemma after_emit_delivers env caller ty text w :
  ty ≠ "error" ->
  q_items (callback_queue (self (after_emit env caller ty text w)))
  = pushed_items (callback_queue (self w)) (fresh (last_event (self w)) ty text) /\
  q_maxsize (callback_queue (self (after_emit env caller ty text w)))
  = q_maxsize (callback_queue (self w)) /\
  last_event (self (after_emit env caller ty text w))
  = recorded (last_event (self w)) ty text.
Proof.
  intros Hne. unfold after_emit, fresh, recorded. cbn [self].
  rewrite same_as_last_is_repeat.
  destruct (is_repeat (last_event (self w)) ty text).
  - by rewrite pushed_items_nil.
  - destruct (enqueue_items (ty, pushed_text env caller ty text)
                (set_last_event (<[ty:=text]> (last_event (self w))) (self w)))
      as [Hi Hm].
    rewrite Hi, Hm, last_event_enqueue. cbn [callback_queue last_event set_last_event].
    unfold pushed_text. by rewrite (bool_decide_eq_false_2 _ Hne).
Qed.

Lemma is_repeat_recorded_other m ty text ty' text' :
  ty ≠ ty' -> is_repeat (recorded m ty text) ty' text' = is_repeat m ty' text'.
Proof.
  intros Hne. unfold recorded, is_repeat at 1 3.
  destruct (is_repeat m ty text); [done|]. by rewrite lookup_insert_ne.
Qed.

Lemma fresh_recorded_other m ty text ty' text' :
  ty ≠ ty' -> fresh (recorded m ty text) ty' text' = fresh m ty' text'.
Proof. intros Hne. unfold fresh. by rewrite is_repeat_recorded_other. Qed.

(** Three emits in a row, of three different types. *)
Lemma three_emits_deliver env me ty1 x1 ty2 x2 ty3 x3 w :
  ty1 ≠ "error" -> ty2 ≠ "error" -> ty3 ≠ "error" ->
  ty1 ≠ ty2 -> ty1 ≠ ty3 -> ty2 ≠ ty3 ->
  let m := last_event (self w) in
  let w' := after_emit env me ty3 x3
              (after_emit env me ty2 x2 (after_emit env me ty1 x1 w)) in
  q_items (callback_queue (self w'))
  = pushed_items (callback_queue (self w))
      (fresh m ty1 x1 ++ fresh m ty2 x2 ++ fresh m ty3 x3) /\
  q_maxsize (callback_queue (self w')) = q_maxsize (callback_queue (self w)) /\
  last_event (self w') = recorded (recorded (recorded m ty1 x1) ty2 x2) ty3 x3.
Proof.
  intros E1 E2 E3 D12 D13 D23. cbv zeta.
  destruct (after_emit_delivers env me ty1 x1 w E1) as (Hi1 & Hm1 & He1).
  destruct (after_emit_delivers env me ty2 x2 (after_emit env me ty1 x1 w) E2)
    as (Hi2 & Hm2 & He2).
  destruct (after_emit_delivers env me ty3 x3
              (after_emit env me ty2 x2 (after_emit env me ty1 x1 w)) E3)
    as (Hi3 & Hm3 & He3).
  split; [|split].
  - rewrite Hi3.
    rewrite (pushed_items_app (callback_queue (self w)) _
               (fresh (last_event (self w)) ty1 x1 ++
                fresh (last_event (self w)) ty2 x2)).
    + rewrite <- app_assoc. do 3 f_equal.
      rewrite He2, He1. by rewrite !fresh_recorded_other.
    + rewrite Hi2.
      rewrite (pushed_items_app (callback_queue (self w)) _
                 (fresh (last_event (self w)) ty1 x1) _ Hi1 Hm1).
      do 2 f_equal. rewrite He1. by rewrite fresh_recorded_other.
    + by rewrite Hm2, Hm1.
  - by rewrite Hm3, Hm2, Hm1.
  - by rewrite He3, He2, He1.
Qed.

(** ** A sample of [cb_progress] that starts a target *)

(** The events of the new-target branch that are no repeats. *)
Lemma new_target_world_delivers env target text percent n i w :
  let m := last_event (self w) in
  let w' := new_target_world env target text percent n i w in
  q_items (callback_queue (self w'))
  = pushed_items (callback_queue (self w))
      (fresh m "target" (PStr text) ++
       fresh m "percent" (py_quot percent 100) ++
       fresh m "global_percent" (py_quot i n)) /\
  q_maxsize (callback_queue (self w')) = q_maxsize (callback_queue (self w)) /\
  last_event (self w')
  = recorded (recorded (recorded m "target" (PStr text))
                "percent" (py_quot percent 100))
      "global_percent" (py_quot i n).
Proof.
  cbv zeta. unfold new_target_world. cbv zeta.
  cbn [self callback_queue last_event set_last_percent].
  exact (three_emits_deliver env (code env "cb_progress" 275)
           "target" (PStr text) "percent" (py_quot percent 100)
           "global_percent" (py_quot i n)
           {| self := set_last_percent 0 (set_last_target (Some target) (self w));
              calls := calls w |}
           ltac:(discriminate) ltac:(discriminate) ltac:(discriminate)
           ltac:(discriminate) ltac:(discriminate) ltac:(discriminate)).
Qed.

(** Two values equal to a third are compared like each other. *)
Lemma py_eq_left old a b : py_eq old a = true -> py_eq old b = py_eq a b.
Proof.
  destruct old, a, b; cbn [py_eq]; intros H; try discriminate H; try reflexivity;
    apply eq_true_iff_eq;
    rewrite ?bool_decide_eq_true, ?Qeq_bool_iff in *;
    rewrite <- ?inject_Z_injective in *;
    try (subst; tauto);
    split; intros H'; (rewrite <- H; exact H') || (rewrite H; exact H').
Qed.

Lemma is_repeat_after_recorded m ty a b :
  is_repeat (recorded m ty a) ty b = py_eq a b.
Proof.
  unfold recorded. destruct (is_repeat m ty a) eqn:Hrep.
  - unfold is_repeat in *. destruct (m !! ty) as [old|]; [|discriminate Hrep].
    by apply py_eq_left.
  - unfold is_repeat. by rewrite lookup_insert_eq.
Qed.

Lemma fresh_after_recorded m ty a b :
  fresh (recorded m ty a) ty b = if py_eq a b then [] else [(ty, b)].
Proof. unfold fresh. by rewrite is_repeat_after_recorded. Qed.

(** A sample that starts a target, with what it hands to the queue. *)
Lemma sample_new_target_delivers env target percent n i w :
  translations_ok env -> target ≠ "" -> n ≠ 0 ->
  is_new_target (self w) target percent = true ->
  exists w' text,
    cb_progress env target percent n i w = Return tt w' /\
    py_format env (gettext env "Installing %s (%d/%d)")
      [PStr target; PInt i; PInt n] = inr text /\
    last_target (self w') = Some target /\
    last_percent (self w') = percent /\
    calls w' = (calls w ++ new_target_calls text percent n i)%list /\
    q_items (callback_queue (self w'))
    = pushed_items (callback_queue (self w))
        (fresh (last_event (self w)) "target" (PStr text) ++
         fresh (last_event (self w)) "percent" (py_quot percent 100) ++
         fresh (last_event (self w)) "global_percent" (py_quot i n)) /\
    q_maxsize (callback_queue (self w')) = q_maxsize (callback_queue (self w)) /\
    last_event (self w')
    = recorded (recorded (recorded (last_event (self w)) "target" (PStr text))
                  "percent" (py_quot percent 100))
        "global_percent" (py_quot i n).
Proof.
  intros Hok Ht Hn Hnew. destruct (proj1 Hok target i n) as [text Htext].
  exists (new_target_world env target text percent n i w), text.
  split; [by apply cb_progress_new_target|]. split; [exact Htext|].
  destruct (new_target_world_fields env target text percent n i w)
    as (H1 & H2 & H3).
  destruct (new_target_world_delivers env target text percent n i w)
    as (H4 & H5 & H6).
  by repeat split.
Qed.

(** ** The four samples of one target *)

(** C6.  From a state that tracks no target, the four samples for
    [pkgA] with the percents 0, 10, 5 and 80 and totals other than 0 all
    return.  The first and the third take the new-target branch: each
    calls the emitter with a [target], a [percent] and a [global_percent]
    event, in this order, and the queue receives, by best-effort pushes,
    those of the three that are no repeats of the text last emitted for
    their type.  For the third sample that is the [percent] event always,
    the [target] event only when its text differs from the text of the
    first sample, and the [global_percent] event only when its quotient
    differs from that of the first sample.  The second and the fourth
    sample change nothing but the recorded percent.  After each of the
    four the recorded percent is the percent of the sample.  In either
    mode a call that returns has recorded its percent; a call returns
    whenever the target is empty, the total is not 0 or the sample stays
    on its target; a sample that starts a target with the total 0 raises
    [ZeroDivisionError] and leaves the recorded percent at the baseline 0. *)
Theorem progress_reset_per_target env w0 n1 i1 n2 i2 n3 i3 n4 i4 :
  translations_ok env ->
  last_target (self w0) = None ->
  n1 ≠ 0 -> n3 ≠ 0 ->
  exists w1 w2 w3 w4 t1 t3,
    (cb_progress env "pkgA" 0 n1 i1 w0 = Return tt w1 /\
     cb_progress env "pkgA" 10 n2 i2 w1 = Return tt w2 /\
     cb_progress env "pkgA" 5 n3 i3 w2 = Return tt w3 /\
     cb_progress env "pkgA" 80 n4 i4 w3 = Return tt w4) /\
    (is_new_target (self w0) "pkgA" 0 = true /\
     is_new_target (self w1) "pkgA" 10 = false /\
     is_new_target (self w2) "pkgA" 5 = true /\
     is_new_target (self w3) "pkgA" 80 = false) /\
    (py_format env (gettext env "Installing %s (%d/%d)")
       [PStr "pkgA"; PInt i1; PInt n1] = inr t1 /\
     py_format env (gettext env "Installing %s (%d/%d)")
       [PStr "pkgA"; PInt i3; PInt n3] = inr t3) /\
    (calls w1 = (calls w0 ++ new_target_calls t1 0 n1 i1)%list /\
     calls w2 = calls w1 /\
     calls w3 = (calls w2 ++ new_target_calls t3 5 n3 i3)%list /\
     calls w4 = calls w3) /\
    (last_percent (self w1) = 0 /\ last_percent (self w2) = 10 /\
     last_percent (self w3) = 5 /\ last_percent (self w4) = 80) /\
    (q_items (callback_queue (self w1))
     = pushed_items (callback_queue (self w0))
         (fresh (last_event (self w0)) "target" (PStr t1) ++
          fresh (last_event (self w0)) "percent" (py_quot 0 100) ++
          fresh (last_event (self w0)) "global_percent" (py_quot i1 n1)) /\
     w2 = {| self := set_last_percent 10 (self w1); calls := calls w1 |} /\
     q_items (callback_queue (self w3))
     = pushed_items (callback_queue (self w2))
         ((if bool_decide (t1 = t3) then [] else [("target", PStr t3)]) ++
          [("percent", py_quot 5 100)] ++
          (if py_eq (py_quot i1 n1) (py_quot i3 n3) then []
           else [("global_percent", py_quot i3 n3)])) /\
     w4 = {| self := set_last_percent 80 (self w3); calls := calls w3 |} /\
     q_maxsize (callback_queue (self w1)) = q_maxsize (callback_queue (self w0)) /\
     q_maxsize (callback_queue (self w3)) = q_maxsize (callback_queue (self w0))) /\
    (forall w target percent n i w',
       cb_progress env target percent n i w = Return tt w' ->
       last_percent (self w') = percent) /\
    (forall w target percent n i,
       target = "" \/ n ≠ 0 \/ is_new_target (self w) target percent = false ->
       exists w', cb_progress env target percent n i w = Return tt w') /\
    (forall w target percent i,
       target ≠ "" -> is_new_target (self w) target percent = true ->
       exists w',
         cb_progress env target percent 0 i w = Raise ZeroDivisionError w' /\
         last_target (self w') = Some target /\
         last_percent (self w') = 0).
Proof.
  intros Hok Hnone Hn1 Hn3.
  assert (Hname : "pkgA" ≠ "") by discriminate.
  assert (Hnew0 : is_new_target (self w0) "pkgA" 0 = true).
  { apply is_new_target_other. rewrite Hnone. discriminate. }
  destruct (sample_new_target_delivers env "pkgA" 0 n1 i1 w0 Hok Hname Hn1 Hnew0)
    as (w1 & t1 & Hrun1 & Ht1 & Ht_1 & Hp_1 & Hc_1 & Hq_1 & Hm_1 & He_1).
  assert (Hnew1 : is_new_target (self w1) "pkgA" 10 = false).
  { apply is_new_target_tracked; [exact Ht_1|rewrite Hp_1; lia]. }
  pose proof (cb_progress_same_target env "pkgA" 10 n2 i2 w1 Hname Hnew1) as Hrun2.
  assert (Hnew2 : is_new_target
                    {| self := set_last_percent 10 (self w1); calls := calls w1 |}.(self)
                    "pkgA" 5 = true).
  { apply is_new_target_lower. cbn [self last_percent set_last_percent]. lia. }
  destruct (sample_new_target_delivers env "pkgA" 5 n3 i3 _ Hok Hname Hn3 Hnew2)
    as (w3 & t3 & Hrun3 & Ht3 & Ht_3 & Hp_3 & Hc_3 & Hq_3 & Hm_3 & He_3).
  assert (Hnew3 : is_new_target (self w3) "pkgA" 80 = false).
  { apply is_new_target_tracked; [exact Ht_3|rewrite Hp_3; lia]. }
  pose proof (cb_progress_same_target env "pkgA" 80 n4 i4 w3 Hname Hnew3) as Hrun4.
  exists w1, {| self := set_last_percent 10 (self w1); calls := calls w1 |},
    w3, {| self := set_last_percent 80 (self w3); calls := calls w3 |}, t1, t3.
  split.
  { split; [exact Hrun1|]. split; [exact Hrun2|]. split; [exact Hrun3|exact Hrun4]. }
  split.
  { split; [exact Hnew0|]. split; [exact Hnew1|]. split; [exact Hnew2|exact Hnew3]. }
  split; [split; [exact Ht1|exact Ht3]|].
  split.
  { split; [exact Hc_1|]. split; [reflexivity|]. split; [exact Hc_3|reflexivity]. }
  split.
  { split; [exact Hp_1|]. split; [reflexivity|]. split; [exact Hp_3|reflexivity]. }
  split.
  { split; [exact Hq_1|]. split; [reflexivity|]. split; [|split; [reflexivity|]].
    - rewrite Hq_3. f_equal.
      cbn [self last_event set_last_percent]. rewrite He_1.
      rewrite (fresh_recorded_other _ "global_percent" _ "target") by discriminate.
      rewrite (fresh_recorded_other _ "percent" _ "target") by discriminate.
      rewrite (fresh_recorded_other _ "global_percent" _ "percent") by discriminate.
      rewrite !fresh_after_recorded. reflexivity.
    - split; [exact Hm_1|]. rewrite Hm_3. exact Hm_1. }
  split; [intros w target percent n i w'; apply cb_progress_sets_percent|].
  split.
  - intros w target percent n i Hcase.
    destruct (decide (target = "")) as [Hempty|Hfull].
    { apply cb_progress_returns; [exact Hok|by left]. }
    destruct Hcase as [Hempty|[Hn|Hsame]]; [done| |].
    + apply cb_progress_returns; [exact Hok|by right].
    + rewrite cb_progress_same_target by done. eauto.
  - intros w target percent i Hfull Hnew.
    destruct (proj1 Hok target i 0) as [text Htext].
    exact (cb_progress_zero_total env target percent i w text Hfull Hnew Htext).
Qed.

(** Two runs against the reading that every reset delivers a [target]
    event and that every call records its percent.  With the index and
    the total unchanged, the third of the four samples takes the
    new-target branch and returns, yet its [target] text is the text of
    the first sample: the emitter drops it as a repeat and the queue
    still holds a single [target] event.  And a first sample with the
    total 0 raises in the division of its third event: the call ends with
    the recorded percent at the baseline 0, not at the sample's 5. *)
Lemma reset_without_target_event_or_recorded_percent :
  let w0 := init_world None unbounded in
  let w1 := final (cb_progress plain_env "pkgA" 0 3 1 w0) in
  let w2 := final (cb_progress plain_env "pkgA" 10 3 1 w1) in
  let w3 := final (cb_progress plain_env "pkgA" 5 3 1 w2) in
  let w' := final (cb_progress plain_env "pkgA" 5 0 1 w0) in
  (cb_progress plain_env "pkgA" 0 3 1 w0 = Return tt w1 /\
   cb_progress plain_env "pkgA" 10 3 1 w1 = Return tt w2 /\
   is_new_target (self w2) "pkgA" 5 = true /\
   cb_progress plain_env "pkgA" 5 3 1 w2 = Return tt w3 /\
   texts_of "target" (q_items (callback_queue (self w2)))
   = [PStr "Installing pkgA (1/3)"] /\
   q_items (callback_queue (self w3))
   = (q_items (callback_queue (self w2)) ++ [("percent", py_quot 5 100)])%list) /\
  (is_new_target (self w0) "pkgA" 5 = true /\
   cb_progress plain_env "pkgA" 5 0 1 w0 = Raise ZeroDivisionError w' /\
   last_percent (self w') = 0).
Proof. cbv zeta. repeat apply conj; vm_compute; reflexivity. Qed.

Lemma progress_reset_per_target_witness :
  exists w1 w2 w3 w4,
    cb_progress plain_env "pkgA" 0 3 1 (init_world None unbounded) = Return tt w1 /\
    cb_progress plain_env "pkgA" 10 3 1 w1 = Return tt w2 /\
    cb_progress plain_env "pkgA" 5 3 1 w2 = Return tt w3 /\
    cb_progress plain_env "pkgA" 80 3 1 w3 = Return tt w4 /\
    q_items (callback_queue (self w1))
    = [("target", PStr "Installing pkgA (1/3)"); ("percent", py_quot 0 100);
       ("global_percent", py_quot 1 3)] /\
    q_items (callback_queue (self w3))
    = pushed_items (callback_queue (self w2)) [("percent", py_quot 5 100)] /\
    last_percent (self w4) = 80.
Proof.
  destruct (progress_reset_per_target plain_env (init_world None unbounded)
              3 1 3 1 3 1 3 1 plain_translations_ok eq_refl)
    as (w1 & w2 & w3 & w4 & t1 & t3 & (H1 & H2 & H3 & H4) & _ & (Ht1 & Ht3) & _ &
        (_ & _ & _ & Hp4) & (Hq1 & _ & Hq3 & _) & _);
    [discriminate|discriminate|].
  exists w1, w2, w3, w4.
  injection Ht1 as <-. injection Ht3 as <-.
  repeat apply conj; assumption.
Defined.

(** ** A download sample and the events it delivers *)

(** Two emits in a row, of two different types. *)
Lemma two_emits_deliver env me ty1 x1 ty2 x2 w :
  ty1 ≠ "error" -> ty2 ≠ "error" -> ty1 ≠ ty2 ->
  q_items (callback_queue (self (after_emit env me ty2 x2 (after_emit env me ty1 x1 w))))
  = pushed_items (callback_queue (self w))
      (fresh (last_event (self w)) ty1 x1 ++ fresh (last_event (self w)) ty2 x2) /\
  q_maxsize (callback_queue (self (after_emit env me ty2 x2 (after_emit env me ty1 x1 w))))
  = q_maxsize (callback_queue (self w)) /\
  last_event (self (after_emit env me ty2 x2 (after_emit env me ty1 x1 w)))
  = recorded (recorded (last_event (self w)) ty1 x1) ty2 x2.
Proof.
  intros E1 E2 D12.
  destruct (after_emit_delivers env me ty1 x1 w E1) as (Hi1 & Hm1 & He1).
  destruct (after_emit_delivers env me ty2 x2 (after_emit env me ty1 x1 w) E2)
    as (Hi2 & Hm2 & He2).
  split; [|split].
  - rewrite Hi2.
    rewrite (pushed_items_app (callback_queue (self w)) _
               (fresh (last_event (self w)) ty1 x1) _ Hi1 Hm1).
    do 2 f_equal. rewrite He1. by rewrite fresh_recorded_other.
  - by rewrite Hm2, Hm1.
  - by rewrite He2, He1.
Qed.

(** The new-file check, with what it hands to the queue. *)
Lemma dl_new_file_delivers env filename tx total w :
  exists w1,
    dl_new_file env filename tx total w = Return tt w1 /\
    last_dl_filename (self w1) = Some filename /\
    last_dl_total (self w1) = Some total /\
    last_dl_progress (self w1)
    = (if is_new_file (self w) filename total then Some 0
       else last_dl_progress (self w)) /\
    calls w1
    = (calls w ++
       if is_new_file (self w) filename total
       then [CQueueEvent "action" (PStr (gettext env (download_text filename tx total)))]
       else [])%list /\
    q_items (callback_queue (self w1))
    = pushed_items (callback_queue (self w))
        (if is_new_file (self w) filename total
         then fresh (last_event (self w)) "action"
                (PStr (gettext env (download_text filename tx total)))
         else []) /\
    q_maxsize (callback_queue (self w1)) = q_maxsize (callback_queue (self w)) /\
    last_event (self w1)
    = (if is_new_file (self w) filename total
       then recorded (last_event (self w)) "action"
              (PStr (gettext env (download_text filename tx total)))
       else last_event (self w)).
Proof.
  unfold dl_new_file. cbv zeta. unfold bind at 1. unfold get_self at 1.
  cbv beta iota. destruct (is_new_file (self w) filename total) eqn:Hnew.
  - unfold format. rewrite format_download.
    run_emits. eexists. split; [reflexivity|].
    match goal with
    | |- context [after_emit ?e ?c ?ty ?x ?W] =>
        destruct (after_emit_delivers e c ty x W ltac:(discriminate))
          as (Hi & Hm & He)
    end.
    rewrite Hi, Hm, He. through_emits after_emit_dl. by repeat apply conj.
  - destruct (is_new_file_false _ _ _ Hnew) as [Hf Ht].
    exists w. split; [reflexivity|]. split; [exact Hf|]. split; [exact Ht|].
    split; [reflexivity|]. split; [by rewrite app_nil_r|].
    split; [by rewrite pushed_items_nil|]. by split.
Qed.

(** The gate, with what it hands to the queue. *)
Lemma dl_gate_delivers env filename tx total progress w last :
  last_dl_progress (self w) = Some last ->
  exists w',
    dl_gate env filename tx total progress w = Return tt w' /\
    calls w'
    = (calls w ++ if bool_decide (progress > last)
                  then gate_calls env filename tx total progress else [])%list /\
    last_dl_progress (self w')
    = Some (if bool_decide (progress > last) then progress else last) /\
    last_dl_filename (self w') = last_dl_filename (self w) /\
    last_dl_total (self w') = last_dl_total (self w) /\
    q_items (callback_queue (self w'))
    = pushed_items (callback_queue (self w))
        (if bool_decide (progress > last)
         then fresh (last_event (self w)) "action"
                (PStr (gettext env (download_text filename tx total))) ++
              fresh (last_event (self w)) "percent" (PInt progress)
         else []) /\
    q_maxsize (callback_queue (self w')) = q_maxsize (callback_queue (self w)) /\
    (progress <= last -> w' = w).
Proof.
  intros Hlast. unfold dl_gate. cbv zeta. unfold bind at 1. unfold get_self at 1.
  cbv beta iota. rewrite Hlast.
  destruct (bool_decide (progress > last)) eqn:Hgt.
  - unfold format. rewrite format_download.
    run_emits. eexists. split; [reflexivity|].
    match goal with
    | |- context [after_emit ?e ?c ?ty2 ?x2 (after_emit ?e ?c ?ty1 ?x1 ?W)] =>
        destruct (two_emits_deliver e c ty1 x1 ty2 x2 W ltac:(discriminate)
                    ltac:(discriminate) ltac:(discriminate))
          as (Hi & Hm & _)
    end.
    rewrite Hi, Hm. rewrite !after_emit_calls. through_emits after_emit_dl.
    cbn [self calls]. unfold gate_calls. rewrite <- app_assoc.
    apply bool_decide_eq_true in Hgt.
    repeat apply conj; (reflexivity || lia).
  - exists w. split; [reflexivity|]. split; [by rewrite app_nil_r|].
    split; [exact Hlast|]. split; [reflexivity|]. split; [reflexivity|].
    split; [by rewrite pushed_items_nil|]. by split.
Qed.

(** C8.  In a state where a tracked file has a recorded progress, the
    new-file check of [cb_dl] returns; with [last] the progress recorded
    after it (0 for a new file, the recorded one otherwise):

    - on a sample that can be evaluated (a known total, or more than
      -1024 bytes transferred), [cb_dl] returns.  It calls the emitter
      with the [action] description once when the file is new, and, when
      the computed [progress] is greater than [last], with the [action]
      description and then with [percent = progress], recording
      [progress]; it makes no other call.  The queue receives, by
      best-effort pushes, the events among these that are no repeats of
      the text last emitted for their type: the description of a new file
      unless it is a repeat, and, when the progress has grown, the
      description (for a file that is not new) and the [percent] event,
      each unless it is a repeat.  When the progress has not grown the
      state is the one after the new-file check;
    - on a sample with an unknown total and at most -1024 bytes
      transferred, [cb_dl] raises [ValueError] after the new-file check,
      whose event is delivered all the same. *)
Theorem download_gate env filename tx total w :
  dl_inv (self w) ->
  let new := is_new_file (self w) filename total in
  let m := last_event (self w) in
  let text := PStr (gettext env (download_text filename tx total)) in
  exists w1 last,
    dl_new_file env filename tx total w = Return tt w1 /\
    last_dl_progress (self w1) = Some last /\
    Some last = (if new then Some 0 else last_dl_progress (self w)) /\
    q_items (callback_queue (self w1))
    = pushed_items (callback_queue (self w)) (if new then fresh m "action" text else []) /\
    dl_inv (self w1) /\
    (total > 0 \/ -1024 < tx ->
     exists progress w',
       dl_progress env tx w1 = Return progress w1 /\
       progress = (if bool_decide (total > 0) then (tx * 25) `div` total
                   else log_progress env tx) /\
       cb_dl env filename tx total w = Return tt w' /\
       calls w'
       = (calls w ++
          (if new then [CQueueEvent "action" text] else []) ++
          (if bool_decide (progress > last)
           then gate_calls env filename tx total progress else []))%list /\
       last_dl_progress (self w')
       = Some (if bool_decide (progress > last) then progress else last) /\
       last_dl_filename (self w') = Some filename /\
       last_dl_total (self w') = Some total /\
       q_items (callback_queue (self w'))
       = pushed_items (callback_queue (self w))
           ((if new then fresh m "action" text else []) ++
            (if bool_decide (progress > last)
             then (if new then [] else fresh m "action" text) ++
                  fresh m "percent" (PInt progress)
             else [])) /\
       q_maxsize (callback_queue (self w')) = q_maxsize (callback_queue (self w)) /\
       (progress <= last -> w' = w1) /\
       dl_inv (self w')) /\
    (total <= 0 -> tx <= -1024 ->
     cb_dl env filename tx total w = Raise ValueError w1).
Proof.
  intros Hinv. cbv zeta.
  destruct (dl_new_file_delivers env filename tx total w)
    as (w1 & Hnew & Hfile & Htot & Hprog1 & Hc1 & Hq1 & Hm1 & He1).
  assert (Hlast : exists last, last_dl_progress (self w1) = Some last).
  { rewrite Hprog1. destruct (is_new_file (self w) filename total) eqn:Hn; [eauto|].
    apply is_new_file_false in Hn as [Hf _].
    destruct (Hinv (ex_intro _ filename Hf)) as [last Hl]. eauto. }
  destruct Hlast as [last Hlast].
  exists w1, last.
  split; [exact Hnew|]. split; [exact Hlast|].
  split; [by rewrite <- Hlast|]. split; [exact Hq1|].
  split; [intros _; rewrite Hlast; eauto|].
  split.
  - intros Hcase.
    assert (Hprog : exists progress,
               dl_progress env tx w1 = Return progress w1 /\
               progress = (if bool_decide (total > 0) then (tx * 25) `div` total
                           else log_progress env tx)).
    { destruct (decide (total > 0)) as [Hpos|Hnp].
      - rewrite (bool_decide_eq_true_2 _ Hpos). eexists.
        split; [by apply (dl_progress_known env tx total)|reflexivity].
      - rewrite (bool_decide_eq_false_2 _ Hnp). eexists.
        split; [|reflexivity].
        apply (dl_progress_unknown env tx total); [done|lia|].
        destruct Hcase; [done|lia]. }
    destruct Hprog as (progress & Hprog & Hpeq).
    destruct (dl_gate_delivers env filename tx total progress w1 last Hlast)
      as (w' & Hgate & Hc & Hp & Hf & Ht & Hq & Hm & Hsame).
    exists progress, w'.
    split; [exact Hprog|]. split; [exact Hpeq|].
    split.
    { rewrite (cb_dl_after_new_file env filename tx total w w1 progress Hnew Hprog).
      exact Hgate. }
    split; [by rewrite Hc, Hc1, <- app_assoc|].
    split; [exact Hp|].
    split; [by rewrite Hf|]. split; [by rewrite Ht|].
    split.
    { rewrite Hq.
      rewrite (pushed_items_app (callback_queue (self w)) _ _ _ Hq1 Hm1).
      do 2 f_equal. rewrite He1.
      destruct (is_new_file (self w) filename total); [|reflexivity].
      rewrite fresh_after_recorded, py_eq_refl.
      by rewrite fresh_recorded_other. }
    split; [by rewrite Hm|]. split; [exact Hsame|].
    intros _. rewrite Hp. eauto.
  - intros Hnp Htx. unfold cb_dl.
    rewrite (bind_returns _ _ _ _ _ Hnew).
    unfold bind at 1. unfold dl_progress, bind, get_self. rewrite Htot.
    rewrite bool_decide_eq_false_2 by lia.
    by rewrite bool_decide_eq_true_2 by lia.
Qed.

(** Two runs against the reading that the [action] and [percent] events
    of a sample go with a grown progress and with nothing else.  The
    first sample of a file, with nothing transferred: the progress 0 is
    not greater than the recorded 0, yet the description is emitted by
    the new-file check and reaches the queue.  And a second file whose
    first sample has the progress of the last sample of the file before
    it: 25 is greater than the recorded 0 and is recorded, yet the
    [percent] event is a repeat of the last [percent] and the queue
    receives the description alone. *)
Lemma action_without_growth_and_growth_without_percent :
  let w0 := init_world None unbounded in
  let w1 := final (cb_dl plain_env "f" 0 100 w0) in
  let wa := final (cb_dl plain_env "a" 100 100 w0) in
  let wb := final (cb_dl plain_env "b" 50 50 wa) in
  (cb_dl plain_env "f" 0 100 w0 = Return tt w1 /\
   dl_progress plain_env 0 w1 = Return 0 w1 /\
   last_dl_progress (self w1) = Some 0 /\
   calls w1 = [CQueueEvent "action" (PStr "Download f: 0/100")] /\
   q_items (callback_queue (self w1)) = [("action", PStr "Download f: 0/100")]) /\
  (cb_dl plain_env "a" 100 100 w0 = Return tt wa /\
   q_items (callback_queue (self wa))
   = [("action", PStr "Download a: 100/100"); ("percent", PInt 25)] /\
   cb_dl plain_env "b" 50 50 wa = Return tt wb /\
   dl_progress plain_env 50 wb = Return 25 wb /\
   last_dl_progress (self wb) = Some 25 /\
   q_items (callback_queue (self wb))
   = (q_items (callback_queue (self wa)) ++
      [("action", PStr "Download b: 50/50")])%list).
Proof. cbv zeta. repeat apply conj; vm_compute; reflexivity. Qed.

Lemma download_gate_witness :
  (exists w',
     cb_dl plain_env "core.db" 40 100 (init_world None unbounded) = Return tt w' /\
     q_items (callback_queue (self w'))
     = [("action", PStr "Download core.db: 40/100"); ("percent", PInt 10)] /\
     last_dl_progress (self w') = Some 10) /\
  (exists w1,
     cb_dl plain_env "core.db" (-2048) 0 (init_world None unbounded)
     = Raise ValueError w1).
Proof.
  split.
  - destruct (download_gate plain_env "core.db" 40 100 (init_world None unbounded)
                (dl_inv_init None unbounded))
      as (w1 & last & _ & _ & Hlast & _ & _ & Hrun & _).
    injection Hlast as ->.
    destruct (Hrun (or_introl eq_refl))
      as (progress & w' & _ & -> & Hcb & _ & Hp & _ & _ & Hq & _).
    exists w'. split; [exact Hcb|]. split; [exact Hq|exact Hp].
  - destruct (download_gate plain_env "core.db" (-2048) 0 (init_world None unbounded)
                (dl_inv_init None unbounded))
      as (w1 & last & _ & _ & _ & _ & _ & _ & Hraise).
    exists w1. apply Hraise; discriminate.
Defined.
